(** * The in-memory document store of [src/backend/database.py]

    A shallow embedding of [MockCollection] (the fallback used when no
    MongoDB server answers) together with the Python value semantics its
    methods rely on: [==], the ordering operators, [in], iteration,
    truthiness, [str.split], [list.append], [list.remove], [sorted] and
    [copy.deepcopy].

    Python exceptions are results [Raise e]; a method that mutates
    [self.data] returns the new store.  Dictionaries are association lists
    in insertion order (the order [dict.items()] yields), because both the
    order in which filter clauses are tried and the order [find] returns
    documents in are observable. *)

From Stdlib Require Import List String Ascii ZArith Bool Lia Arith.
From Stdlib Require Import Sorted Permutation.
Import ListNotations.
Local Open Scope string_scope.
Local Open Scope Z_scope.
Local Open Scope list_scope.

(** ** Exceptions and results *)

Inductive exn : Type :=
| TypeError
| AttributeError
| KeyError
| RecursionError
| SystemError.

Inductive result (A : Type) : Type :=
| Ok (a : A)
| Raise (e : exn).

Arguments Ok {A} a.
Arguments Raise {A} e.

Definition bind {A B : Type} (m : result A) (k : A -> result B) : result B :=
  match m with
  | Ok a => k a
  | Raise e => Raise e
  end.

Notation "x <- m ;; k" := (bind m (fun x => k))
  (at level 61, m at next level, right associativity).

Notation "' p <- m ;; k" := (bind m (fun x => match x with p => k end))
  (at level 61, p pattern, m at next level, right associativity).

Definition raises {A : Type} (m : result A) : Prop :=
  exists e, m = Raise e.

(** ** Python values

    The JSON-like universe the store holds: [None], booleans, integers,
    strings, lists, and dictionaries keyed by field name. *)

#[warnings="-register-all"]
Inductive value : Type :=
| VNone
| VBool (b : bool)
| VInt (n : Z)
| VStr (s : string)
| VList (xs : list value)
| VDict (kvs : list (string * value)).

Definition dict : Type := list (string * value).

(** Induction over values that also covers the values nested in lists and
    dictionaries. *)
Section value_induction.
Variable P : value -> Prop.
Hypothesis HNone : P VNone.
Hypothesis HBool : forall b, P (VBool b).
Hypothesis HInt : forall n, P (VInt n).
Hypothesis HStr : forall s, P (VStr s).
Hypothesis HList : forall xs, Forall P xs -> P (VList xs).
Hypothesis HDict : forall kvs, Forall (fun kv => P (snd kv)) kvs -> P (VDict kvs).

Fixpoint value_nested_ind (v : value) : P v :=
  match v with
  | VNone => HNone
  | VBool b => HBool b
  | VInt n => HInt n
  | VStr s => HStr s
  | VList xs =>
      HList xs
        ((fix go (l : list value) : Forall P l :=
            match l with
            | [] => Forall_nil P
            | x :: l' => Forall_cons x (value_nested_ind x) (go l')
            end) xs)
  | VDict kvs =>
      HDict kvs
        ((fix go (l : dict) : Forall (fun kv => P (snd kv)) l :=
            match l with
            | [] => Forall_nil _
            | kv :: l' =>
                Forall_cons (P := fun kv => P (snd kv)) kv
                  (value_nested_ind (snd kv)) (go l')
            end) kvs)
  end.
End value_induction.

(** ** Dictionaries: [k in d], [d[k]], [d[k] = v] *)

Fixpoint dict_get (k : string) (d : dict) : option value :=
  match d with
  | [] => None
  | (k', v) :: d' => if String.eqb k k' then Some v else dict_get k d'
  end.

Definition dict_has (k : string) (d : dict) : bool :=
  match dict_get k d with
  | Some _ => true
  | None => false
  end.

(** [d[k] = v]: an existing key keeps its position, a new key goes last. *)
Fixpoint dict_set (k : string) (v : value) (d : dict) : dict :=
  match d with
  | [] => [(k, v)]
  | (k', v') :: d' =>
      if String.eqb k k' then (k', v) :: d' else (k', v') :: dict_set k v d'
  end.

(** ** Equality, ordering, membership, iteration *)

(** The integer a number stands for; [bool] is a subtype of [int]. *)
Definition num_of (v : value) : option Z :=
  match v with
  | VBool b => Some (Z.b2z b)
  | VInt n => Some n
  | _ => None
  end.

(** [a == b].  Dictionaries are equal when they have as many keys and
    every key of the left one is bound to an equal value on the right. *)
Fixpoint py_eq (a b : value) {struct a} : bool :=
  match a, b with
  | VNone, VNone => true
  | VBool x, VBool y => Bool.eqb x y
  | VBool x, VInt n => Z.b2z x =? n
  | VInt m, VBool y => m =? Z.b2z y
  | VInt m, VInt n => m =? n
  | VStr s, VStr t => String.eqb s t
  | VList xs, VList ys =>
      (fix go (l : list value) (r : list value) {struct l} : bool :=
         match l, r with
         | [], [] => true
         | x :: l', y :: r' => py_eq x y && go l' r'
         | _, _ => false
         end) xs ys
  | VDict d, VDict e =>
      Nat.eqb (List.length d) (List.length e) &&
      (fix go (l : dict) {struct l} : bool :=
         match l with
         | [] => true
         | (k, v) :: l' =>
             match dict_get k e with
             | Some w => py_eq v w
             | None => false
             end && go l'
         end) d
  | _, _ => false
  end.

Inductive cmp_op : Type := OpLt | OpLe | OpGt | OpGe.

Definition op_holds (op : cmp_op) (c : comparison) : bool :=
  match op, c with
  | OpLt, Lt => true
  | OpLe, Lt => true
  | OpLe, Eq => true
  | OpGt, Gt => true
  | OpGe, Gt => true
  | OpGe, Eq => true
  | _, _ => false
  end.

(** [a < b], [a <= b], [a > b], [a >= b].  Numbers compare as integers,
    strings by code point, lists at the first index where they differ
    (else by length); every other pairing is a [TypeError].  Strings are
    read as UTF-8, whose byte order is the code-point order. *)
Fixpoint py_compare (op : cmp_op) (a b : value) {struct a} : result bool :=
  match a, b with
  | VBool x, VBool y => Ok (op_holds op (Z.b2z x ?= Z.b2z y))
  | VBool x, VInt n => Ok (op_holds op (Z.b2z x ?= n))
  | VInt m, VBool y => Ok (op_holds op (m ?= Z.b2z y))
  | VInt m, VInt n => Ok (op_holds op (m ?= n))
  | VStr s, VStr t => Ok (op_holds op (String.compare s t))
  | VList xs, VList ys =>
      (fix go (l : list value) (r : list value) {struct l} : result bool :=
         match l, r with
         | x :: l', y :: r' =>
             if py_eq x y then go l' r' else py_compare op x y
         | _, _ => Ok (op_holds op (Nat.compare (List.length l) (List.length r)))
         end) xs ys
  | _, _ => Raise TypeError
  end.

(** [hash(v)] succeeds: lists and dictionaries are unhashable. *)
Definition hashable (v : value) : bool :=
  match v with
  | VList _ | VDict _ => false
  | _ => true
  end.

(** [t in s] for strings: [t] occurs in [s] as a substring. *)
Fixpoint str_contains (t s : string) {struct s} : bool :=
  String.prefix t s ||
  match s with
  | EmptyString => false
  | String _ s' => str_contains t s'
  end.

(** [item in container]. *)
Definition py_in (item container : value) : result bool :=
  match container with
  | VList xs => Ok (existsb (fun x => py_eq x item) xs)
  | VDict d =>
      match item with
      | VStr k => Ok (dict_has k d)
      | VList _ | VDict _ => Raise TypeError
      | _ => Ok false
      end
  | VStr s =>
      match item with
      | VStr t => Ok (str_contains t s)
      | _ => Raise TypeError
      end
  | _ => Raise TypeError
  end.

(** A byte of the form [10xxxxxx]: it continues the character begun by an
    earlier byte. *)
Definition is_continuation (c : ascii) : bool :=
  match c with
  | Ascii _ _ _ _ _ _ false true => true
  | _ => false
  end.

(** The characters of a string, each as a string of its own: a byte
    followed by a continuation byte belongs to the same character. *)
Fixpoint str_chars (s : string) : list value :=
  match s with
  | EmptyString => []
  | String c s' =>
      match s' with
      | EmptyString => [VStr (String c EmptyString)]
      | String c' _ =>
          if is_continuation c' then
            match str_chars s' with
            | VStr h :: t => VStr (String c h) :: t
            | _ => [VStr (String c EmptyString)]
            end
          else VStr (String c EmptyString) :: str_chars s'
      end
  end.

(** [iter(v)]: the elements a [for] loop over [v] visits. *)
Definition py_iter (v : value) : result (list value) :=
  match v with
  | VList xs => Ok xs
  | VStr s => Ok (str_chars s)
  | VDict d => Ok (map (fun kv => VStr (fst kv)) d)
  | _ => Raise TypeError
  end.

(** [container[k]] for a string [k]. *)
Definition py_getitem (container : value) (k : string) : result value :=
  match container with
  | VDict d =>
      match dict_get k d with
      | Some v => Ok v
      | None => Raise KeyError
      end
  | _ => Raise TypeError
  end.

(** [bool(v)]. *)
Definition py_truthy (v : value) : bool :=
  match v with
  | VNone => false
  | VBool b => b
  | VInt n => negb (n =? 0)
  | VStr s => negb (String.eqb s "")
  | VList xs => negb (Nat.eqb (List.length xs) 0)
  | VDict d => negb (Nat.eqb (List.length d) 0)
  end.

(** [s.split(c)] for a one-character separator. *)
Fixpoint str_split (c : ascii) (s : string) : list string :=
  match s with
  | EmptyString => [EmptyString]
  | String a s' =>
      if Ascii.eqb a c then EmptyString :: str_split c s'
      else match str_split c s' with
           | h :: t => String a h :: t
           | [] => [String a EmptyString]
           end
  end.

(** [l.remove(v)]: drops the first element equal to [v]. *)
Fixpoint list_remove (v : value) (l : list value) : list value :=
  match l with
  | [] => []
  | x :: l' => if py_eq x v then l' else x :: list_remove v l'
  end.

(** ** [MockCollection]

    [self.data] maps document keys to stored documents.  Keys are the
    hashable values found under ["_id"]; a key is looked up with [==], the
    way a Python dictionary does after hashing.

    This module treats documents as values.  That is what the methods
    compute as long as no list object sits under two fields, or in two
    documents, at once, which holds for documents written as literals, the
    seed data among them; what is shared with callers, and what they may do
    to the objects they get back, is the matter of [Module Heap]. *)

Module MockCollection.

Definition store : Type := list (value * dict).

(** [self.data[doc_id]], [None] standing for an absent key. *)
Fixpoint store_get (doc_id : value) (data : store) : option dict :=
  match data with
  | [] => None
  | (k, d) :: data' => if py_eq k doc_id then Some d else store_get doc_id data'
  end.

(** [self.data[doc_id] = d]: an existing entry keeps its key and position. *)
Fixpoint store_set (doc_id : value) (d : dict) (data : store) : store :=
  match data with
  | [] => [(doc_id, d)]
  | (k, d') :: data' =>
      if py_eq k doc_id then (k, d) :: data'
      else (k, d') :: store_set doc_id d data'
  end.

(** [doc_id in self.data]; hashing an unhashable key raises. *)
Definition store_has (doc_id : value) (data : store) : result bool :=
  if hashable doc_id then
    Ok (match store_get doc_id data with Some _ => true | None => false end)
  else Raise TypeError.

(** [self.data[doc_id]] as an expression. *)
Definition store_index (doc_id : value) (data : store) : result dict :=
  match store_get doc_id data with
  | Some d => Ok d
  | None => Raise KeyError
  end.

(** Lines 32-33.  The [query] argument is never read. *)
Definition count_documents (data : store) (query : value) : Z :=
  Z.of_nat (List.length data).

(** Lines 35-38. *)
Definition insert_one (data : store) (document : dict) : result store :=
  match dict_get "_id" document with
  | Some doc_id =>
      if py_truthy doc_id then
        let stored :=
          filter (fun kv => negb (String.eqb (fst kv) "_id")) document in
        if hashable doc_id then Ok (store_set doc_id stored data)
        else Raise TypeError
      else Ok data
  | None => Ok data
  end.

(** Lines 40-47.  [copy.deepcopy] returns an equal value; that the copy
    shares no mutable object with the store is the subject of [Module Heap]
    below. *)
Definition find_one (data : store) (query : value) : result (option dict) :=
  match query with
  | VDict q =>
      match dict_get "_id" q with
      | Some doc_id =>
          has <- store_has doc_id data ;;
          if has then
            stored <- store_index doc_id data ;;
            Ok (Some (dict_set "_id" doc_id stored))
          else Ok None
      | None => Ok None
      end
  | _ => Ok None
  end.

(** [any(item in current_val for item in items)], stopping at the first hit. *)
Fixpoint any_in (items : list value) (current_val : value) : result bool :=
  match items with
  | [] => Ok false
  | item :: rest =>
      hit <- py_in item current_val ;;
      if hit then Ok true else any_in rest current_val
  end.

(** Lines 74-86 and, with [doc[key]] for [current_val], lines 90-102: the
    test of one resolved field against the clause's value.  [Ok false] is
    the [return False] of the loop body, [Ok true] lets the loop go on. *)
Definition match_value (current_val value : value) : result bool :=
  match value with
  | VDict ops =>
      match dict_get "$in" ops with
      | Some candidates =>
          items <- py_iter candidates ;;
          any_in items current_val
      | None =>
          match dict_get "$gte" ops with
          | Some bound =>
              below <- py_compare OpLt current_val bound ;;
              Ok (negb below)
          | None =>
              match dict_get "$lte" ops with
              | Some bound =>
                  above <- py_compare OpGt current_val bound ;;
                  Ok (negb above)
              | None => Ok true
              end
          end
      end
  | _ => Ok (py_eq current_val value)
  end.

(** Lines 66-71: walk [field_parts] down from the document. *)
Fixpoint traverse (current_val : value) (field_parts : list string)
  : option value :=
  match field_parts with
  | [] => Some current_val
  | part :: rest =>
      match current_val with
      | VDict d =>
          match dict_get part d with
          | Some v => traverse v rest
          | None => None
          end
      | _ => None
      end
  end.

(** Lines 63-104: the body of the loop for one [key, value] pair. *)
Definition match_clause (doc : dict) (key : string) (value : value)
  : result bool :=
  if str_contains "." key then
    match traverse (VDict doc) (str_split "."%char key) with
    | Some current_val => match_value current_val value
    | None => Ok false
    end
  else
    match dict_get key doc with
    | Some current_val => match_value current_val value
    | None => Ok false
    end.

(** Lines 60-105. *)
Fixpoint _match_query (doc : dict) (query : dict) : result bool :=
  match query with
  | [] => Ok true
  | (key, value) :: rest =>
      ok <- match_clause doc key value ;;
      if ok then _match_query doc rest else Ok false
  end.

(** Lines 49-58.  [None] is the omitted [query]. *)
Fixpoint find (data : store) (query : option dict) : result (list dict) :=
  match data with
  | [] => Ok []
  | (doc_id, doc_data) :: data' =>
      let doc := dict_set "_id" doc_id doc_data in
      keep <- match query with
              | None => Ok true
              | Some q => _match_query doc q
              end ;;
      tail <- find data' query ;;
      Ok (if keep then doc :: tail else tail)
  end.

(** [spec.items()] of an operator argument. *)
Definition py_items (spec : value) : result dict :=
  match spec with
  | VDict kvs => Ok kvs
  | _ => Raise AttributeError
  end.

(** Lines 113-116 for one [field, value] pair. *)
Definition push_field (doc : dict) (field : string) (value : value)
  : result dict :=
  match dict_get field doc with
  | Some (VList xs) => Ok (dict_set field (VList (xs ++ [value])) doc)
  | Some _ => Raise AttributeError
  | None => Ok (dict_set field (VList [value]) doc)
  end.

(** Lines 119-120 for one [field, value] pair. *)
Definition pull_field (doc : dict) (field : string) (value : value)
  : result dict :=
  match dict_get field doc with
  | Some current =>
      present <- py_in value current ;;
      if present then
        match current with
        | VList xs => Ok (dict_set field (VList (list_remove value xs)) doc)
        | _ => Raise AttributeError
        end
      else Ok doc
  | None => Ok doc
  end.

(** A [for field, value in spec.items()] loop over the stored document. *)
Fixpoint for_fields (step : dict -> string -> value -> result dict)
    (doc : dict) (items : dict) : result dict :=
  match items with
  | [] => Ok doc
  | (field, value) :: rest =>
      doc' <- step doc field value ;;
      for_fields step doc' rest
  end.

(** One operator group of the update: absent, or applied pair by pair. *)
Definition apply_operator (name : string)
    (step : dict -> string -> value -> result dict)
    (update : dict) (doc : dict) : result dict :=
  match dict_get name update with
  | Some spec =>
      items <- py_items spec ;;
      for_fields step doc items
  | None => Ok doc
  end.

(** Lines 107-122.  The result pairs the store after the call with
    [modified_count].  An exception loses the store: what a failed update
    leaves behind is not described. *)
Definition update_one (data : store) (query : value) (update : dict)
  : result (store * Z) :=
  match query with
  | VDict q =>
      match dict_get "_id" q with
      | Some doc_id =>
          has <- store_has doc_id data ;;
          if has then
            doc <- store_index doc_id data ;;
            pushed <- apply_operator "$push" push_field update doc ;;
            pulled <- apply_operator "$pull" pull_field update pushed ;;
            Ok (store_set doc_id pulled data, 1)
          else Ok (data, 0)
      | None => Ok (data, 0)
      end
  | _ => Ok (data, 0)
  end.

(** [result.add(day)] on a set kept in insertion order. *)
Definition set_add (day : value) (seen : list value) : result (list value) :=
  if hashable day then
    Ok (if existsb (fun x => py_eq x day) seen then seen else seen ++ [day])
  else Raise TypeError.

Fixpoint set_add_all (days : list value) (seen : list value)
  : result (list value) :=
  match days with
  | [] => Ok seen
  | day :: rest =>
      seen' <- set_add day seen ;;
      set_add_all rest seen'
  end.

(** Lines 128-129: the days one stored document contributes. *)
Definition days_of (doc_data : dict) : result (list value) :=
  match dict_get "schedule_details" doc_data with
  | Some details =>
      has <- py_in (VStr "days") details ;;
      if has then
        days <- py_getitem details "days" ;;
        py_iter days
      else Ok []
  | None => Ok []
  end.

(** Lines 126-130: the set built by the scan. *)
Fixpoint collect_days (data : store) (seen : list value)
  : result (list value) :=
  match data with
  | [] => Ok seen
  | (_, doc_data) :: data' =>
      days <- days_of doc_data ;;
      seen' <- set_add_all days seen ;;
      collect_days data' seen'
  end.

(** [sorted]: an insertion sort asking only [<], as Python's sort does.  On
    the duplicate-free input a set provides, a comparison sort either
    raises or returns the one ascending arrangement, so neither the
    algorithm nor the order in which the set is iterated shows. *)
Fixpoint sorted_insert (x : value) (l : list value) : result (list value) :=
  match l with
  | [] => Ok [x]
  | y :: l' =>
      before <- py_compare OpLt x y ;;
      if before then Ok (x :: y :: l')
      else (l'' <- sorted_insert x l' ;; Ok (y :: l''))
  end.

Fixpoint py_sorted (l : list value) : result (list value) :=
  match l with
  | [] => Ok []
  | x :: l' =>
      s <- py_sorted l' ;;
      sorted_insert x s
  end.

(** Lines 124-131.  The [pipeline] argument is never read. *)
Definition aggregate (data : store) (pipeline : value) : result (list dict) :=
  days <- collect_days data [] ;;
  ordered <- py_sorted days ;;
  Ok (map (fun day => [("_id", day)]) ordered).

End MockCollection.

(** ** Objects and references

    [copy.deepcopy] matters only because Python lists and dictionaries are
    objects that several references may share.  Here the documents live in
    a heap: an address holds a list or a dictionary whose entries are
    scalars or addresses.  Scalars are immutable, so sharing them does not
    show. *)

Module Heap.

Inductive ref : Type :=
| RNone
| RBool (b : bool)
| RInt (n : Z)
| RStr (s : string)
| RObj (l : nat).

Inductive obj : Type :=
| OList (items : list ref)
| ODict (fields : list (string * ref)).

(** The object at address [l] is the [l]-th of the heap; a new object takes
    the next address. *)
Definition heap : Type := list obj.

Fixpoint update (l : nat) (o : obj) (h : heap) : heap :=
  match h, l with
  | [], _ => []
  | _ :: h', O => o :: h'
  | o' :: h', S l' => o' :: update l' o h'
  end.

(** [r] stands for the value [v] in [h], through objects whose addresses
    all satisfy [P]. *)
Fixpoint repr (P : nat -> Prop) (h : heap) (r : ref) (v : value) {struct v}
  : Prop :=
  match v with
  | VNone => r = RNone
  | VBool b => r = RBool b
  | VInt n => r = RInt n
  | VStr s => r = RStr s
  | VList xs =>
      exists l items,
        r = RObj l /\ P l /\ nth_error h l = Some (OList items) /\
        (fix all (items : list ref) (xs : list value) {struct xs} : Prop :=
           match xs, items with
           | [], [] => True
           | x :: xs', i :: items' => repr P h i x /\ all items' xs'
           | _, _ => False
           end) items xs
  | VDict kvs =>
      exists l fields,
        r = RObj l /\ P l /\ nth_error h l = Some (ODict fields) /\
        (fix all (fields : list (string * ref)) (kvs : dict) {struct kvs}
           : Prop :=
           match kvs, fields with
           | [], [] => True
           | kv :: kvs', f :: fields' =>
               fst f = fst kv /\ repr P h (snd f) (snd kv) /\ all fields' kvs'
           | _, _ => False
           end) fields kvs
  end.

Fixpoint repr_items (P : nat -> Prop) (h : heap) (items : list ref)
    (xs : list value) {struct xs} : Prop :=
  match xs, items with
  | [], [] => True
  | x :: xs', i :: items' => repr P h i x /\ repr_items P h items' xs'
  | _, _ => False
  end.

Fixpoint repr_fields (P : nat -> Prop) (h : heap)
    (fields : list (string * ref)) (kvs : dict) {struct kvs} : Prop :=
  match kvs, fields with
  | [], [] => True
  | kv :: kvs', f :: fields' =>
      fst f = fst kv /\ repr P h (snd f) (snd kv) /\ repr_fields P h fields' kvs'
  | _, _ => False
  end.

(** How deep the containers of a value nest. *)
Fixpoint depth (v : value) : nat :=
  match v with
  | VList xs =>
      S ((fix deepest (xs : list value) : nat :=
            match xs with
            | [] => O
            | x :: xs' => Nat.max (depth x) (deepest xs')
            end) xs)
  | VDict kvs =>
      S ((fix deepest (kvs : dict) : nat :=
            match kvs with
            | [] => O
            | kv :: kvs' => Nat.max (depth (snd kv)) (deepest kvs')
            end) kvs)
  | _ => O
  end.

(** Copy the entries of a container one after the other, each copy in the
    heap the previous one left. *)
Fixpoint copy_items (copy : heap -> ref -> result (heap * ref)) (h : heap)
    (items : list ref) : result (heap * list ref) :=
  match items with
  | [] => Ok (h, [])
  | i :: rest =>
      '(h1, i') <- copy h i ;;
      '(h2, rest') <- copy_items copy h1 rest ;;
      Ok (h2, i' :: rest')
  end.

Fixpoint copy_fields (copy : heap -> ref -> result (heap * ref)) (h : heap)
    (fields : list (string * ref)) : result (heap * list (string * ref)) :=
  match fields with
  | [] => Ok (h, [])
  | (k, i) :: rest =>
      '(h1, i') <- copy h i ;;
      '(h2, rest') <- copy_fields copy h1 rest ;;
      Ok (h2, (k, i') :: rest')
  end.

(** [copy.deepcopy(r)]: scalars are returned as they are, a list or a
    dictionary becomes a new object holding copies of its entries.  [fuel]
    is the interpreter's recursion limit.  The memo table, which keeps
    sharing inside the copy and lets cyclic structures through, is left
    out: stored documents are trees. *)
Fixpoint deepcopy (fuel : nat) (h : heap) (r : ref) {struct fuel}
  : result (heap * ref) :=
  match r with
  | RObj l =>
      match fuel with
      | O => Raise RecursionError
      | S fuel' =>
          match nth_error h l with
          | Some (OList items) =>
              '(h1, items') <- copy_items (deepcopy fuel') h items ;;
              Ok (h1 ++ [OList items'], RObj (List.length h1))
          | Some (ODict fields) =>
              '(h1, fields') <- copy_fields (deepcopy fuel') h fields ;;
              Ok (h1 ++ [ODict fields'], RObj (List.length h1))
          | None => Raise SystemError
          end
      end
  | _ => Ok (h, r)
  end.

(** A hashable value as a reference. *)
Definition scalar_ref (v : value) : option ref :=
  match v with
  | VNone => Some RNone
  | VBool b => Some (RBool b)
  | VInt n => Some (RInt n)
  | VStr s => Some (RStr s)
  | VList _ | VDict _ => None
  end.

Fixpoint fields_set (k : string) (r : ref) (fields : list (string * ref))
  : list (string * ref) :=
  match fields with
  | [] => [(k, r)]
  | (k', r') :: fields' =>
      if String.eqb k k' then (k', r) :: fields'
      else (k', r') :: fields_set k r fields'
  end.

(** [o[k] = r] on the object at [l]. *)
Definition setitem (h : heap) (l : nat) (k : string) (r : ref)
  : result heap :=
  match nth_error h l with
  | Some (ODict fields) => Ok (update l (ODict (fields_set k r fields)) h)
  | Some (OList _) => Raise TypeError
  | None => Raise SystemError
  end.

(** [self.data]: the keys, each with the address of its document. *)
Definition store : Type := list (value * nat).

Fixpoint store_get (doc_id : value) (data : store) : option nat :=
  match data with
  | [] => None
  | (k, l) :: data' => if py_eq k doc_id then Some l else store_get doc_id data'
  end.

(** Lines 40-47 on the heap: the heap after the call, and the reference
    returned ([None] for Python's [None]). *)
Definition find_one (fuel : nat) (h : heap) (data : store) (query : value)
  : result (heap * option ref) :=
  match query with
  | VDict q =>
      match dict_get "_id" q with
      | Some doc_id =>
          match scalar_ref doc_id with
          | Some key =>
              match store_get doc_id data with
              | Some l =>
                  '(h1, result) <- deepcopy fuel h (RObj l) ;;
                  match result with
                  | RObj l' =>
                      h2 <- setitem h1 l' "_id" key ;;
                      Ok (h2, Some result)
                  | _ => Raise TypeError
                  end
              | None => Ok (h, None)
              end
          | None => Raise TypeError
          end
      | None => Ok (h, None)
      end
  | _ => Ok (h, None)
  end.

(** The heap store holds, key by key, the documents of the value store. *)
Fixpoint store_repr (h : heap) (data : store) (docs : MockCollection.store)
  : Prop :=
  match data, docs with
  | [], [] => True
  | (k, l) :: data', (k', doc) :: docs' =>
      k = k' /\ repr (fun _ => True) h (RObj l) (VDict doc) /\
      store_repr h data' docs'
  | _, _ => False
  end.

(** [k in o] and [o[k]] on a dictionary object. *)
Fixpoint fields_get (k : string) (fields : list (string * ref)) : option ref :=
  match fields with
  | [] => None
  | (k', r) :: fields' => if String.eqb k k' then Some r else fields_get k fields'
  end.

(** [bool(r)]. *)
Definition truthy (h : heap) (r : ref) : result bool :=
  match r with
  | RNone => Ok false
  | RBool b => Ok b
  | RInt n => Ok (negb (n =? 0))
  | RStr s => Ok (negb (String.eqb s ""))
  | RObj l =>
      match nth_error h l with
      | Some (OList items) => Ok (negb (Nat.eqb (List.length items) 0))
      | Some (ODict fields) => Ok (negb (Nat.eqb (List.length fields) 0))
      | None => Raise SystemError
      end
  end.

(** The value a scalar reference carries; objects cannot be hashed. *)
Definition ref_key (r : ref) : option value :=
  match r with
  | RNone => Some VNone
  | RBool b => Some (VBool b)
  | RInt n => Some (VInt n)
  | RStr s => Some (VStr s)
  | RObj _ => None
  end.

(** [self.data[doc_id] = l]. *)
Fixpoint store_set (doc_id : value) (l : nat) (data : store) : store :=
  match data with
  | [] => [(doc_id, l)]
  | (k, l') :: data' =>
      if py_eq k doc_id then (k, l) :: data'
      else (k, l') :: store_set doc_id l data'
  end.

(** Lines 35-38 on the heap.  [document] is the address of the caller's
    dictionary; the comprehension builds one new dictionary object and
    puts into it the references the caller's dictionary holds. *)
Definition insert_one (h : heap) (data : store) (document : nat)
  : result (heap * store) :=
  match nth_error h document with
  | Some (ODict fields) =>
      match fields_get "_id" fields with
      | Some doc_id =>
          yes <- truthy h doc_id ;;
          if yes then
            let stored :=
              filter (fun f => negb (String.eqb (fst f) "_id")) fields in
            match ref_key doc_id with
            | Some key =>
                Ok (h ++ [ODict stored], store_set key (List.length h) data)
            | None => Raise TypeError
            end
          else Ok (h, data)
      | None => Ok (h, data)
      end
  | Some (OList _) => Raise AttributeError
  | None => Raise SystemError
  end.

(** Lines 113-116 on the heap, for one [field, value] pair and the stored
    document at address [doc]: [append] writes into the list object the
    field refers to; an absent field gets a new list object. *)
Definition push_field (h : heap) (doc : nat) (field : string) (value : ref)
  : result heap :=
  match nth_error h doc with
  | Some (ODict fields) =>
      match fields_get field fields with
      | Some (RObj l) =>
          match nth_error h l with
          | Some (OList items) => Ok (update l (OList (items ++ [value])) h)
          | Some (ODict _) => Raise AttributeError
          | None => Raise SystemError
          end
      | Some _ => Raise AttributeError
      | None =>
          Ok (update doc
                (ODict (fields_set field (RObj (List.length h)) fields))
                (h ++ [OList [value]]))
      end
  | Some (OList _) => Raise TypeError
  | None => Raise SystemError
  end.

End Heap.

Import MockCollection.

(** * Vocabulary of the statements, and sample collections *)

(** The number of elements of [l] equal to [v]. *)
Definition occurrences (v : value) (l : list value) : nat :=
  List.length (filter (fun x => py_eq x v) l).

(** A roster on which one address was pushed twice. *)
Definition roster_with_repeat : store :=
  [(VStr "Chess Club",
    [("max_participants", VInt 12);
     ("participants",
      VList [VStr "michael@mergington.edu"; VStr "daniel@mergington.edu";
             VStr "michael@mergington.edu"])])].

Definition two_clubs : store :=
  [(VStr "Chess Club",
    [("max_participants", VInt 12);
     ("participants", VList [VStr "michael@mergington.edu"])]);
   (VStr "Programming Class",
    [("max_participants", VInt 20);
     ("participants", VList [VStr "emma@mergington.edu"])])].

(** The operator argument as a list of pairs: none when the operator is
    absent, undefined when [.items()] would fail. *)
Definition operator_items (name : string) (update : dict) : option dict :=
  match dict_get name update with
  | None => Some []
  | Some (VDict kvs) => Some kvs
  | Some _ => None
  end.

(** Every field named in [names] is absent from [doc] or holds a list. *)
Definition lists_or_absent (names : list string) (doc : dict) : Prop :=
  forall f, In f names ->
    match dict_get f doc with
    | Some (VList _) | None => True
    | Some _ => False
    end.

(** A stored entry as [find] hands it out: the document with its key put
    back under ["_id"]. *)
Definition materialise (entry : value * dict) : dict :=
  dict_set "_id" (fst entry) (snd entry).

(** The number of documents a filter matches: the length of what [find]
    returns for it. *)
Definition count_matching (data : store) (q : dict) : result Z :=
  docs <- find data (Some q) ;;
  Ok (Z.of_nat (List.length docs)).

Definition at_least_twenty : dict :=
  [("max_participants", VDict [("$gte", VInt 20)])].

(** The field a path denotes, in the specification's terms: the path is cut
    at every separator and each segment must be a key of the mapping reached
    so far.  A path without separator is its own single segment. *)
Definition resolve_path (doc : dict) (key : string) : option value :=
  traverse (VDict doc) (str_split "."%char key).

(** A clause holds of a document when its path resolves to a field and the
    field passes the clause's test. *)
Definition clause_holds (doc : dict) (clause : string * value) : Prop :=
  exists current_val,
    resolve_path doc (fst clause) = Some current_val /\
    match_value current_val (snd clause) = Ok true.

Definition chess_club : dict :=
  [("schedule_details",
    VDict [("days", VList [VStr "Monday"; VStr "Friday"]);
           ("start_time", VStr "15:15")]);
   ("max_participants", VInt 12);
   ("participants", VList [VStr "michael@mergington.edu"])].

(** The capacity of a stored document, when it states one as an integer. *)
Definition capacity (doc : dict) : option Z :=
  match dict_get "max_participants" doc with
  | Some (VInt n) => Some n
  | _ => None
  end.

(** The document states an integer capacity or none at all. *)
Definition capacity_well_typed (doc : dict) : Prop :=
  match dict_get "max_participants" doc with
  | Some (VInt _) | None => True
  | Some _ => False
  end.

Definition seats_twenty (entry : value * dict) : bool :=
  match capacity (snd entry) with
  | Some n => 20 <=? n
  | None => false
  end.

(** The elements a field holds as a list; an absent field holds none. *)
Definition field_elements (doc : dict) (field : string)
  : option (list value) :=
  match dict_get field doc with
  | Some (VList xs) => Some xs
  | None => Some []
  | Some _ => None
  end.

(** The strings a list consists of, when it holds nothing else. *)
Fixpoint strings_of (xs : list value) : option (list string) :=
  match xs with
  | [] => Some []
  | VStr s :: xs' =>
      match strings_of xs' with
      | Some ss => Some (s :: ss)
      | None => None
      end
  | _ => None
  end.

(** The day names a well-formed document lists under
    [schedule_details.days]: none when either level is absent. *)
Definition day_names (doc : dict) : option (list string) :=
  match dict_get "schedule_details" doc with
  | None => Some []
  | Some (VDict details) =>
      match dict_get "days" details with
      | None => Some []
      | Some (VList days) => strings_of days
      | Some _ => None
      end
  | Some _ => None
  end.

(** All day names of a collection of well-formed documents, in scan
    order and with repetitions. *)
Fixpoint scheduled_days (data : store) : option (list string) :=
  match data with
  | [] => Some []
  | (_, doc) :: data' =>
      match day_names doc, scheduled_days data' with
      | Some here, Some later => Some (here ++ later)
      | _, _ => None
      end
  end.

(** The aggregation in the specification's terms: keep the first occurrence
    of every name, then sort. *)
Definition add_name (seen : list string) (d : string) : list string :=
  if existsb (fun s => String.eqb s d) seen then seen else seen ++ [d].

Definition distinct_names (names : list string) : list string :=
  fold_left add_name names [].

Fixpoint insert_name (x : string) (l : list string) : list string :=
  match l with
  | [] => [x]
  | y :: l' => if String.ltb x y then x :: y :: l' else y :: insert_name x l'
  end.

Fixpoint sort_names (l : list string) : list string :=
  match l with
  | [] => []
  | x :: l' => insert_name x (sort_names l')
  end.

Definition unique_days (names : list string) : list string :=
  sort_names (distinct_names names).

(** [x] is not after [y]. *)
Definition name_le (x y : string) : Prop := String.ltb y x = false.

Definition name_lt (x y : string) : Prop := String.ltb x y = true.

Definition week_data : store :=
  [(VStr "Chess Club",
    [("schedule_details",
      VDict [("days", VList [VStr "Monday"; VStr "Friday"])])]);
   (VStr "Debate Team",
    [("schedule_details", VDict [("days", VList [VStr "Friday"])])])].

(** What a successful copy of [v] from [r] in [h] looks like: the heap
    grows, and the copy stands for [v] through new objects only. *)
Definition copied (fuel : nat) (v : value) : Prop :=
  forall h r,
    Heap.repr (fun _ => True) h r v ->
    exists new r',
      Heap.deepcopy fuel h r = Ok (h ++ new, r') /\
      Heap.repr (fun l => List.length h <= l < List.length (h ++ new))%nat
        (h ++ new) r' v.

(** What a caller can do to the heap through references it [owns]:
    overwrite the objects at those addresses, any number of times, and
    create objects. *)
Inductive mutated (owns : nat -> Prop) (h : Heap.heap) : Heap.heap -> Prop :=
| mutated_none : mutated owns h h
| mutated_write (h' : Heap.heap) (a : nat) (o : Heap.obj) :
    mutated owns h h' -> owns a -> mutated owns h (Heap.update a o h')
| mutated_alloc (h' : Heap.heap) (o : Heap.obj) :
    mutated owns h h' -> mutated owns h (h' ++ [o]).

Definition club_heap : Heap.heap :=
  [Heap.OList [Heap.RStr "michael@mergington.edu"];
   Heap.ODict [("max_participants", Heap.RInt 12);
               ("participants", Heap.RObj 0)]].

Definition club_store : Heap.store := [(VStr "Chess Club", 1%nat)].

Definition club_doc : dict :=
  [("max_participants", VInt 12);
   ("participants", VList [VStr "michael@mergington.edu"])].

(** ** [init_database]

    The two collections are [MockCollection]s; the seed data are
    parameters, the teacher records with their passwords already hashed. *)

(** [{"_id": key, **mapping}]: the key first, then the mapping's items in
    order, a later binding of a name replacing the earlier value. *)
Definition with_id (key : value) (mapping : value) : result dict :=
  match mapping with
  | VDict kvs =>
      Ok (fold_left (fun acc kv => dict_set (fst kv) (snd kv) acc) kvs
            [("_id", key)])
  | _ => Raise TypeError
  end.

(** Lines 147-148. *)
Fixpoint seed_activities (data : store) (initial_activities : dict)
  : result store :=
  match initial_activities with
  | [] => Ok data
  | (name, details) :: rest =>
      document <- with_id (VStr name) details ;;
      data' <- insert_one data document ;;
      seed_activities data' rest
  end.

(** Lines 152-153. *)
Fixpoint seed_teachers (data : store) (initial_teachers : list value)
  : result store :=
  match initial_teachers with
  | [] => Ok data
  | teacher :: rest =>
      username <- py_getitem teacher "username" ;;
      document <- with_id username teacher ;;
      data' <- insert_one data document ;;
      seed_teachers data' rest
  end.

(** Lines 142-153: the activities and the teachers collection after the
    call. *)
Definition init_database (activities teachers : store)
    (initial_activities : dict) (initial_teachers : list value)
  : result (store * store) :=
  activities' <-
    (if count_documents activities (VDict []) =? 0
     then seed_activities activities initial_activities
     else Ok activities) ;;
  teachers' <-
    (if count_documents teachers (VDict []) =? 0
     then seed_teachers teachers initial_teachers
     else Ok teachers) ;;
  Ok (activities', teachers').

(** ** Further vocabulary *)

(** The keys of a store as Python dictionaries keep them: hashable and
    pairwise different under [==]. *)
Fixpoint keys_distinct (keys : list value) : Prop :=
  match keys with
  | [] => True
  | k :: rest =>
      hashable k = true /\
      Forall (fun k' => py_eq k' k = false) rest /\
      keys_distinct rest
  end.

Definition store_wf (data : store) : Prop := keys_distinct (map fst data).

(** The stored form of a document: everything but the key field. *)
Definition without_id (document : dict) : dict :=
  filter (fun kv => negb (String.eqb (fst kv) "_id")) document.

(** The filter accepts the entry, as a plain truth value. *)
Definition accepts (q : dict) (entry : value * dict) : bool :=
  match _match_query (materialise entry) q with
  | Ok true => true
  | _ => false
  end.

(** The update reduced to one of its operator groups. *)
Definition only_operator (name : string) (update : dict) : dict :=
  match dict_get name update with
  | Some spec => [(name, spec)]
  | None => []
  end.

(** Named records as seed data, and as the store keeps them. *)
Definition seed_of (records : list (string * dict)) : dict :=
  map (fun r => (fst r, VDict (snd r))) records.

Definition store_of (records : list (string * dict)) : store :=
  map (fun r => (VStr (fst r), snd r)) records.

(** A mapping written as a literal: no name twice, and no key field. *)
Definition plain_record (d : dict) : Prop :=
  NoDup (map fst d) /\ ~ In "_id" (map fst d).

(** ** What a filter asks of a document, stated apart from the matcher *)

(** The string has no separator in it. *)
Fixpoint dotless (s : string) : Prop :=
  match s with
  | EmptyString => True
  | String c s' => c <> "."%char /\ dotless s'
  end.

(** The segments written one after the other with a separator between
    neighbours. *)
Fixpoint join_dots (segments : list string) : string :=
  match segments with
  | [] => EmptyString
  | s :: rest =>
      match rest with
      | [] => s
      | _ :: _ => String.append s (String "."%char (join_dots rest))
      end
  end.

(** [segments] are the segments of the field path [key]: separator-free
    pieces that, joined by separators, give the key back. *)
Definition path_of (key : string) (segments : list string) : Prop :=
  segments <> [] /\ join_dots segments = key /\ Forall dotless segments.

(** Following the segments from [v], each one a key of the mapping reached
    so far, ends at [w]. *)
Inductive reaches : value -> list string -> value -> Prop :=
| reaches_here (v : value) : reaches v [] v
| reaches_down (d : dict) (segment : string) (rest : list string)
    (v w : value) :
    dict_get segment d = Some v ->
    reaches v rest w ->
    reaches (VDict d) (segment :: rest) w.

(** The field the path [key] denotes in [doc] is [current_val]. *)
Definition field_at (doc : dict) (key : string) (current_val : value) : Prop :=
  exists segments,
    path_of key segments /\ reaches (VDict doc) segments current_val.

(** Some item is in [current_val], and Python's [in] answers [False] for
    every item before it. *)
Definition first_hit (current_val : value) (items : list value) : Prop :=
  exists before item after,
    items = before ++ item :: after /\
    py_in item current_val = Ok true /\
    Forall (fun i => py_in i current_val = Ok false) before.

(** The field value passes the test a clause value stands for: a value that
    is not a mapping asks for equality; a mapping asks by its operator,
    [$in] for an item of the operator's list that is in the field, [$gte]
    for [field >= bound], [$lte] for [field <= bound], the first of the
    three that is there; a mapping with none of them asks nothing. *)
Inductive test_passes (current_val : value) : value -> Prop :=
| passes_literal (v : value) :
    (forall ops, v <> VDict ops) ->
    py_eq current_val v = true ->
    test_passes current_val v
| passes_in (ops : dict) (candidates : value) (items : list value) :
    dict_get "$in" ops = Some candidates ->
    py_iter candidates = Ok items ->
    first_hit current_val items ->
    test_passes current_val (VDict ops)
| passes_gte (ops : dict) (bound : value) :
    dict_get "$in" ops = None ->
    dict_get "$gte" ops = Some bound ->
    py_compare OpGe current_val bound = Ok true ->
    test_passes current_val (VDict ops)
| passes_lte (ops : dict) (bound : value) :
    dict_get "$in" ops = None ->
    dict_get "$gte" ops = None ->
    dict_get "$lte" ops = Some bound ->
    py_compare OpLe current_val bound = Ok true ->
    test_passes current_val (VDict ops)
| passes_unrecognised (ops : dict) :
    dict_get "$in" ops = None ->
    dict_get "$gte" ops = None ->
    dict_get "$lte" ops = None ->
    test_passes current_val (VDict ops).

(** The document satisfies the clause: the clause's path denotes a field,
    and the field passes the clause's test. *)
Definition clause_satisfied (doc : dict) (clause : string * value) : Prop :=
  exists current_val,
    field_at doc (fst clause) current_val /\
    test_passes current_val (snd clause).

(** * Properties *)

(** ** Results *)

Lemma bind_Ok {A B : Type} (m : result A) (k : A -> result B) (b : B) :
  bind m k = Ok b -> exists a, m = Ok a /\ k a = Ok b.
Proof.
  destruct m as [a|e]; simpl; intros H.
  - exists a. split; [reflexivity | exact H].
  - discriminate H.
Qed.

Ltac bind_inv H :=
  let a := fresh "a" in
  let Ha := fresh "Ha" in
  apply bind_Ok in H; destruct H as [a [Ha H]].

(** ** Dictionaries *)

Lemma dict_get_cons (k k' : string) (v : value) (d : dict) :
  dict_get k ((k', v) :: d) = if String.eqb k k' then Some v else dict_get k d.
Proof. reflexivity. Qed.

Lemma dict_get_set_same (k : string) (v : value) (d : dict) :
  dict_get k (dict_set k v d) = Some v.
Proof.
  induction d as [|[k' v'] d IH]; simpl.
  - now rewrite String.eqb_refl.
  - destruct (String.eqb k k') eqn:E; simpl; rewrite E; [reflexivity | exact IH].
Qed.

Lemma dict_get_set_other (k k' : string) (v : value) (d : dict) :
  k <> k' -> dict_get k' (dict_set k v d) = dict_get k' d.
Proof.
  intros Hne. induction d as [|[k0 v0] d IH]; simpl.
  - destruct (String.eqb k' k) eqn:E; [|reflexivity].
    apply String.eqb_eq in E. congruence.
  - destruct (String.eqb k k0) eqn:E; simpl.
    + apply String.eqb_eq in E. subst k0.
      destruct (String.eqb k' k) eqn:E'; [|reflexivity].
      apply String.eqb_eq in E'. congruence.
    + now rewrite IH.
Qed.

Lemma dict_get_filter_other (k : string) (d : dict) :
  k <> "_id" ->
  dict_get k (filter (fun kv => negb (String.eqb (fst kv) "_id")) d)
  = dict_get k d.
Proof.
  intros Hne. induction d as [|[k0 v0] d IH]; simpl; [reflexivity|].
  destruct (String.eqb k0 "_id") eqn:E; simpl.
  - apply String.eqb_eq in E. subst k0.
    destruct (String.eqb k "_id") eqn:E'; [|exact IH].
    apply String.eqb_eq in E'. congruence.
  - now rewrite IH.
Qed.

Lemma dict_get_filter_id (d : dict) :
  dict_get "_id" (filter (fun kv => negb (String.eqb (fst kv) "_id")) d) = None.
Proof.
  induction d as [|[k0 v0] d IH]; [reflexivity|].
  cbn [filter fst]. destruct (String.eqb k0 "_id") eqn:E; cbn [negb]; [exact IH|].
  rewrite dict_get_cons, String.eqb_sym, E. exact IH.
Qed.

(** ** The store *)

Lemma py_eq_refl_hashable (v : value) : hashable v = true -> py_eq v v = true.
Proof.
  destruct v; simpl; try discriminate; intros _.
  - reflexivity.
  - apply Bool.eqb_reflx.
  - apply Z.eqb_refl.
  - apply String.eqb_refl.
Qed.

Lemma store_get_set_same (doc_id : value) (d : dict) (data : store) :
  hashable doc_id = true -> store_get doc_id (store_set doc_id d data) = Some d.
Proof.
  intros Hh. induction data as [|[k d'] data IH]; simpl.
  - now rewrite py_eq_refl_hashable.
  - destruct (py_eq k doc_id) eqn:E; simpl; rewrite E; [reflexivity | exact IH].
Qed.

Lemma store_set_length (doc_id : value) (d d0 : dict) (data : store) :
  store_get doc_id data = Some d0 ->
  List.length (store_set doc_id d data) = List.length data.
Proof.
  induction data as [|[k d'] data IH]; simpl; [discriminate|].
  destruct (py_eq k doc_id); simpl; [reflexivity|].
  intros H. now rewrite IH.
Qed.

Lemma store_has_true (doc_id : value) (data : store) :
  store_has doc_id data = Ok true <->
  hashable doc_id = true /\ exists d, store_get doc_id data = Some d.
Proof.
  unfold store_has. destruct (hashable doc_id); split.
  - destruct (store_get doc_id data) as [d|]; [|discriminate].
    intros _. split; [reflexivity | now exists d].
  - intros [_ [d ->]]. reflexivity.
  - discriminate.
  - intros [H _]. discriminate H.
Qed.

Lemma store_has_false (doc_id : value) (data : store) :
  store_has doc_id data = Ok false <->
  hashable doc_id = true /\ store_get doc_id data = None.
Proof.
  unfold store_has. destruct (hashable doc_id); split.
  - destruct (store_get doc_id data) as [d|]; [discriminate|].
    intros _. split; reflexivity.
  - intros [_ ->]. reflexivity.
  - discriminate.
  - intros [H _]. discriminate H.
Qed.

(** ** [list.remove] *)

(** What [l.remove(v)] does when [v] is in [l]: the list splits around the
    first element equal to [v], which alone goes away. *)
Lemma list_remove_split (v : value) (l : list value) :
  existsb (fun x => py_eq x v) l = true ->
  exists pre x post,
    l = pre ++ x :: post /\
    py_eq x v = true /\
    forallb (fun y => negb (py_eq y v)) pre = true /\
    list_remove v l = pre ++ post.
Proof.
  induction l as [|y l IH]; simpl; [discriminate|].
  destruct (py_eq y v) eqn:E; simpl.
  - intros _. exists [], y, l. repeat split; assumption.
  - intros H. destruct (IH H) as (pre & x & post & -> & Hx & Hpre & Hrm).
    exists (y :: pre), x, post. simpl. rewrite E, Hrm. repeat split; assumption.
Qed.

Lemma list_remove_absent (v : value) (l : list value) :
  existsb (fun x => py_eq x v) l = false -> list_remove v l = l.
Proof.
  induction l as [|y l IH]; simpl; [reflexivity|].
  destruct (py_eq y v); simpl; [discriminate|].
  intros H. now rewrite IH.
Qed.

Lemma occurrences_remove (v : value) (l : list value) :
  existsb (fun x => py_eq x v) l = true ->
  S (occurrences v (list_remove v l)) = occurrences v l.
Proof.
  unfold occurrences. induction l as [|y l IH]; simpl; [discriminate|].
  destruct (py_eq y v) eqn:E; simpl.
  - reflexivity.
  - rewrite E. exact IH.
Qed.

Lemma occurrences_zero (v : value) (l : list value) :
  occurrences v l = 0%nat <-> existsb (fun x => py_eq x v) l = false.
Proof.
  unfold occurrences. induction l as [|y l IH]; simpl; [tauto|].
  destruct (py_eq y v); simpl; [split; discriminate | exact IH].
Qed.

(** The elements other than [v] are the same before and after, in the same
    order. *)
Lemma list_remove_others (v : value) (l : list value) :
  filter (fun x => negb (py_eq x v)) (list_remove v l)
  = filter (fun x => negb (py_eq x v)) l.
Proof.
  induction l as [|y l IH]; simpl; [reflexivity|].
  destruct (py_eq y v) eqn:E; simpl; [reflexivity|].
  rewrite E. simpl. now rewrite IH.
Qed.

Lemma dict_set_same_value (k : string) (v : value) (d : dict) :
  dict_get k d = Some v -> dict_set k v d = d.
Proof.
  induction d as [|[k0 v0] d IH]; simpl; [discriminate|].
  destruct (String.eqb k k0) eqn:E.
  - intros [= ->]. reflexivity.
  - intros H. now rewrite IH.
Qed.

Lemma store_set_same_value (doc_id : value) (d : dict) (data : store) :
  store_get doc_id data = Some d -> store_set doc_id d data = data.
Proof.
  induction data as [|[k0 d0] data IH]; simpl; [discriminate|].
  destruct (py_eq k0 doc_id) eqn:E.
  - intros [= ->]. reflexivity.
  - intros H. now rewrite IH.
Qed.

(** ** [update_one] *)

(** Once the key is found, the call is the two operator groups in turn. *)
Lemma update_one_found (data : store) (q : dict) (doc_id : value) (doc : dict)
    (update : dict) :
  dict_get "_id" q = Some doc_id ->
  hashable doc_id = true ->
  store_get doc_id data = Some doc ->
  update_one data (VDict q) update =
  (pushed <- apply_operator "$push" push_field update doc ;;
   pulled <- apply_operator "$pull" pull_field update pushed ;;
   Ok (store_set doc_id pulled data, 1)).
Proof.
  intros Hq Hh Hg. unfold update_one, store_has, store_index.
  rewrite Hq, Hh, Hg. reflexivity.
Qed.

Lemma apply_operator_absent (name : string)
    (step : dict -> string -> value -> result dict) (update doc : dict) :
  dict_get name update = None -> apply_operator name step update doc = Ok doc.
Proof. unfold apply_operator. now intros ->. Qed.

Lemma apply_operator_single (name : string)
    (step : dict -> string -> value -> result dict) (update doc : dict)
    (field : string) (v : value) :
  dict_get name update = Some (VDict [(field, v)]) ->
  apply_operator name step update doc = step doc field v.
Proof.
  unfold apply_operator. intros ->. simpl.
  destruct (step doc field v); reflexivity.
Qed.

(** A [$pull] of [v] on a list-valued field, with no [$push] beside it,
    stores [list.remove]'s result, whether or not [v] was there. *)
Lemma update_one_pull (data : store) (q : dict) (doc_id : value) (doc : dict)
    (update : dict) (field : string) (v : value) (xs : list value) :
  dict_get "_id" q = Some doc_id ->
  hashable doc_id = true ->
  store_get doc_id data = Some doc ->
  dict_get "$push" update = None ->
  dict_get "$pull" update = Some (VDict [(field, v)]) ->
  dict_get field doc = Some (VList xs) ->
  update_one data (VDict q) update =
  Ok (store_set doc_id (dict_set field (VList (list_remove v xs)) doc) data, 1).
Proof.
  intros Hq Hh Hg Hpush Hpull Hf.
  rewrite (update_one_found data q doc_id doc update Hq Hh Hg).
  rewrite (apply_operator_absent _ _ _ _ Hpush). cbn [bind].
  rewrite (apply_operator_single _ _ _ _ _ _ Hpull).
  unfold pull_field. rewrite Hf. cbn [py_in bind].
  destruct (existsb (fun x => py_eq x v) xs) eqn:E; [reflexivity|].
  rewrite (list_remove_absent _ _ E), (dict_set_same_value _ _ _ Hf).
  reflexivity.
Qed.

(** When [v] occurs exactly once in the field, nothing equal to [v] is left
    and the other elements stay as they were. *)
Lemma update_one_pull_single_occurrence (data : store) (q : dict)
    (doc_id : value) (doc : dict) (update : dict) (field : string) (v : value)
    (xs : list value) :
  dict_get "_id" q = Some doc_id ->
  hashable doc_id = true ->
  store_get doc_id data = Some doc ->
  dict_get "$push" update = None ->
  dict_get "$pull" update = Some (VDict [(field, v)]) ->
  dict_get field doc = Some (VList xs) ->
  occurrences v xs = 1%nat ->
  exists data' doc' ys,
    update_one data (VDict q) update = Ok (data', 1) /\
    store_get doc_id data' = Some doc' /\
    dict_get field doc' = Some (VList ys) /\
    occurrences v ys = 0%nat /\
    ys = filter (fun x => negb (py_eq x v)) xs.
Proof.
  intros Hq Hh Hg Hpush Hpull Hf Hocc.
  exists (store_set doc_id (dict_set field (VList (list_remove v xs)) doc) data),
    (dict_set field (VList (list_remove v xs)) doc), (list_remove v xs).
  assert (Hin : existsb (fun x => py_eq x v) xs = true).
  { destruct (existsb (fun x => py_eq x v) xs) eqn:E; [reflexivity|].
    apply occurrences_zero in E. rewrite E in Hocc. discriminate Hocc. }
  assert (Hzero : occurrences v (list_remove v xs) = 0%nat).
  { pose proof (occurrences_remove v xs Hin) as H. rewrite Hocc in H. lia. }
  split; [now apply update_one_pull|].
  split; [now apply store_get_set_same|].
  split; [apply dict_get_set_same|].
  split; [exact Hzero|].
  rewrite <- (list_remove_others v xs).
  apply occurrences_zero in Hzero. clear -Hzero.
  induction (list_remove v xs) as [|y l IH]; simpl in *; [reflexivity|].
  destruct (py_eq y v); simpl in *; [discriminate|].
  now rewrite <- IH.
Qed.

(** C1: a [$pull] of V is to remove every occurrence of V from the field.
    On a list that holds V twice, [update_one] takes out the first
    occurrence only: the second is still there afterwards. *)
Theorem pull_leaves_second_occurrence :
  update_one roster_with_repeat (VDict [("_id", VStr "Chess Club")])
    [("$pull", VDict [("participants", VStr "michael@mergington.edu")])]
  = Ok ([(VStr "Chess Club",
          [("max_participants", VInt 12);
           ("participants",
            VList [VStr "daniel@mergington.edu";
                   VStr "michael@mergington.edu"])])], 1)
  /\ occurrences (VStr "michael@mergington.edu")
       [VStr "daniel@mergington.edu"; VStr "michael@mergington.edu"] = 1%nat.
Proof. split; reflexivity. Qed.

(** C7: with a filter that has no key field, or whose key the collection
    does not hold, [update_one] returns the collection as it was and a
    modification count of zero, and raises nothing. *)
Theorem update_one_unmatched_is_noop (data : store) (q : dict) (update : dict) :
  (dict_get "_id" q = None ->
   update_one data (VDict q) update = Ok (data, 0)) /\
  (forall doc_id,
     dict_get "_id" q = Some doc_id ->
     store_has doc_id data = Ok false ->
     update_one data (VDict q) update = Ok (data, 0)).
Proof.
  split.
  - intros Hq. unfold update_one. now rewrite Hq.
  - intros doc_id Hq Hhas. unfold update_one. rewrite Hq, Hhas. reflexivity.
Qed.

Lemma update_one_unmatched_is_noop_witness :
  update_one two_clubs (VDict [("name", VStr "Chess Club")])
    [("$push", VDict [("participants", VStr "x@mergington.edu")])]
  = Ok (two_clubs, 0) /\
  update_one two_clubs (VDict [("_id", VStr "Art Club")])
    [("$push", VDict [("participants", VStr "x@mergington.edu")])]
  = Ok (two_clubs, 0).
Proof.
  split.
  - apply (update_one_unmatched_is_noop two_clubs [("name", VStr "Chess Club")]).
    reflexivity.
  - apply (update_one_unmatched_is_noop two_clubs [("_id", VStr "Art Club")])
      with (doc_id := VStr "Art Club"); reflexivity.
Defined.

Lemma push_field_total (names : list string) (doc : dict) (f : string)
    (v : value) :
  lists_or_absent names doc -> In f names ->
  exists doc', push_field doc f v = Ok doc' /\ lists_or_absent names doc'.
Proof.
  intros Hl Hin. unfold push_field. pose proof (Hl f Hin) as Hf.
  destruct (dict_get f doc) as [[| | | |xs|]|] eqn:E; try contradiction.
  - eexists. split; [reflexivity|]. intros g Hg.
    destruct (String.eqb f g) eqn:Efg.
    + apply String.eqb_eq in Efg. subst g. now rewrite dict_get_set_same.
    + apply String.eqb_neq in Efg. rewrite dict_get_set_other by exact Efg.
      exact (Hl g Hg).
  - eexists. split; [reflexivity|]. intros g Hg.
    destruct (String.eqb f g) eqn:Efg.
    + apply String.eqb_eq in Efg. subst g. now rewrite dict_get_set_same.
    + apply String.eqb_neq in Efg. rewrite dict_get_set_other by exact Efg.
      exact (Hl g Hg).
Qed.

Lemma pull_field_total (names : list string) (doc : dict) (f : string)
    (v : value) :
  lists_or_absent names doc -> In f names ->
  exists doc', pull_field doc f v = Ok doc' /\ lists_or_absent names doc'.
Proof.
  intros Hl Hin. unfold pull_field. pose proof (Hl f Hin) as Hf.
  destruct (dict_get f doc) as [[| | | |xs|]|] eqn:E; try contradiction.
  - cbn [py_in bind]. destruct (existsb (fun x => py_eq x v) xs).
    + eexists. split; [reflexivity|]. intros g Hg.
      destruct (String.eqb f g) eqn:Efg.
      * apply String.eqb_eq in Efg. subst g. now rewrite dict_get_set_same.
      * apply String.eqb_neq in Efg. rewrite dict_get_set_other by exact Efg.
        exact (Hl g Hg).
    + exists doc. split; [reflexivity | exact Hl].
  - exists doc. split; [reflexivity | exact Hl].
Qed.

Lemma for_fields_total (step : dict -> string -> value -> result dict)
    (names : list string) :
  (forall doc f v, lists_or_absent names doc -> In f names ->
     exists doc', step doc f v = Ok doc' /\ lists_or_absent names doc') ->
  forall items doc,
    lists_or_absent names doc ->
    (forall f, In f (map fst items) -> In f names) ->
    exists doc', for_fields step doc items = Ok doc' /\
                 lists_or_absent names doc'.
Proof.
  intros Hstep items. induction items as [|[f v] items IH]; intros doc Hl Hsub.
  - exists doc. split; [reflexivity | exact Hl].
  - destruct (Hstep doc f v Hl (Hsub f (or_introl eq_refl)))
      as (doc1 & E1 & Hl1).
    destruct (IH doc1 Hl1 (fun g Hg => Hsub g (or_intror Hg)))
      as (doc2 & E2 & Hl2).
    exists doc2. split; [|exact Hl2]. simpl. rewrite E1. exact E2.
Qed.

Lemma apply_operator_items (name : string)
    (step : dict -> string -> value -> result dict) (update doc : dict)
    (items : dict) :
  operator_items name update = Some items ->
  apply_operator name step update doc = for_fields step doc items.
Proof.
  unfold operator_items, apply_operator.
  destruct (dict_get name update) as [[| | | | |kvs]|]; try discriminate.
  - intros [= ->]. reflexivity.
  - intros [= <-]. reflexivity.
Qed.

(** C9: when the filter's key is in the collection, [update_one] reports one
    modification whatever the update does.  It can report nothing else;
    it does report it for every update whose operators address lists or
    absent fields; and it reports it when the store ends up unchanged, with
    neither operator present or with a [$pull] of a value the field lacks. *)
Theorem update_one_reports_one (data : store) (q : dict) (doc_id : value)
    (doc : dict) (update : dict)
    (Hq : dict_get "_id" q = Some doc_id)
    (Hh : hashable doc_id = true)
    (Hg : store_get doc_id data = Some doc) :
  (forall data' n, update_one data (VDict q) update = Ok (data', n) -> n = 1) /\
  (forall pushes pulls,
     operator_items "$push" update = Some pushes ->
     operator_items "$pull" update = Some pulls ->
     lists_or_absent (map fst pushes ++ map fst pulls) doc ->
     exists data', update_one data (VDict q) update = Ok (data', 1)) /\
  (dict_get "$push" update = None -> dict_get "$pull" update = None ->
   update_one data (VDict q) update = Ok (data, 1)) /\
  (forall field v xs,
     dict_get "$push" update = None ->
     dict_get "$pull" update = Some (VDict [(field, v)]) ->
     dict_get field doc = Some (VList xs) ->
     existsb (fun x => py_eq x v) xs = false ->
     update_one data (VDict q) update = Ok (data, 1)).
Proof.
  rewrite (update_one_found data q doc_id doc update Hq Hh Hg).
  split; [|split; [|split]].
  - intros data' n H. bind_inv H. bind_inv H. now injection H as _ <-.
  - intros pushes pulls Hpush Hpull Hl.
    rewrite (apply_operator_items _ _ _ _ _ Hpush).
    destruct (for_fields_total push_field _
                (push_field_total (map fst pushes ++ map fst pulls))
                pushes doc Hl) as (doc1 & -> & Hl1).
    { intros f Hf. apply in_or_app. now left. }
    cbn [bind]. rewrite (apply_operator_items _ _ _ _ _ Hpull).
    destruct (for_fields_total pull_field _
                (pull_field_total (map fst pushes ++ map fst pulls))
                pulls doc1 Hl1) as (doc2 & -> & _).
    { intros f Hf. apply in_or_app. now right. }
    cbn [bind]. eexists. reflexivity.
  - intros Hpush Hpull.
    rewrite (apply_operator_absent _ _ _ _ Hpush). cbn [bind].
    rewrite (apply_operator_absent _ _ _ _ Hpull). cbn [bind].
    now rewrite (store_set_same_value _ _ _ Hg).
  - intros field v xs Hpush Hpull Hf Habs.
    rewrite (apply_operator_absent _ _ _ _ Hpush). cbn [bind].
    rewrite (apply_operator_single _ _ _ _ _ _ Hpull).
    unfold pull_field. rewrite Hf. cbn [py_in bind]. rewrite Habs. cbn [bind].
    now rewrite (store_set_same_value _ _ _ Hg).
Qed.

Lemma update_one_reports_one_witness :
  update_one two_clubs (VDict [("_id", VStr "Chess Club")])
    [("$pull", VDict [("participants", VStr "nobody@mergington.edu")])]
  = Ok (two_clubs, 1).
Proof.
  destruct (update_one_reports_one two_clubs [("_id", VStr "Chess Club")]
              (VStr "Chess Club")
              [("max_participants", VInt 12);
               ("participants", VList [VStr "michael@mergington.edu"])]
              [("$pull", VDict [("participants", VStr "nobody@mergington.edu")])]
              eq_refl eq_refl eq_refl) as (_ & _ & _ & H).
  apply (H "participants" (VStr "nobody@mergington.edu")
           [VStr "michael@mergington.edu"]); reflexivity.
Defined.

(** ** [find] and [count_documents] *)

Lemma find_cons (doc_id : value) (doc_data : dict) (data : store)
    (query : option dict) :
  find ((doc_id, doc_data) :: data) query =
  (keep <- match query with
           | None => Ok true
           | Some q => _match_query (materialise (doc_id, doc_data)) q
           end ;;
   tail <- find data query ;;
   Ok (if keep then materialise (doc_id, doc_data) :: tail else tail)).
Proof. reflexivity. Qed.

Lemma find_all (data : store) : find data None = Ok (map materialise data).
Proof.
  induction data as [|[doc_id doc] data IH]; [reflexivity|].
  cbn [find bind]. rewrite IH. reflexivity.
Qed.

Lemma find_empty_filter (data : store) :
  find data (Some []) = Ok (map materialise data).
Proof.
  induction data as [|[doc_id doc] data IH]; [reflexivity|].
  cbn [find _match_query bind]. rewrite IH. reflexivity.
Qed.

(** C2, as stated, fails: of the two documents one matches the filter, and
    [count_documents] answers two. *)
Lemma count_documents_ignores_filter :
  count_matching two_clubs at_least_twenty = Ok 1 /\
  count_documents two_clubs (VDict at_least_twenty) = 2.
Proof. split; reflexivity. Qed.

(** C2, amended: [count_documents] returns the number of documents in the
    collection whatever the filter is; for the empty filter, and for no
    filter at all, that is the number of documents matching. *)
Theorem count_documents_is_collection_size (data : store) (query : value) :
  count_documents data query = Z.of_nat (List.length data) /\
  count_matching data [] = Ok (count_documents data (VDict [])) /\
  (exists docs, find data None = Ok docs /\
                count_documents data VNone = Z.of_nat (List.length docs)).
Proof.
  split; [reflexivity|]. split.
  - unfold count_matching. rewrite find_empty_filter. cbn [bind].
    unfold count_documents. now rewrite length_map.
  - exists (map materialise data). split; [apply find_all|].
    unfold count_documents. now rewrite length_map.
Qed.

(** ** The query matcher *)

Lemma prefix_dot (a : ascii) (s : string) :
  String.prefix "." (String a s) = Ascii.eqb "."%char a.
Proof.
  cbn [String.prefix]. destruct (ascii_dec "." a) as [->|Hne].
  - rewrite Ascii.eqb_refl. now destruct s.
  - symmetry. now apply Ascii.eqb_neq.
Qed.

Lemma str_split_no_separator (key : string) :
  str_contains "." key = false -> str_split "."%char key = [key].
Proof.
  induction key as [|a s IH]; [reflexivity|].
  cbn [str_contains]. rewrite prefix_dot. cbn [str_split].
  rewrite (Ascii.eqb_sym a "."). destruct (Ascii.eqb "." a); [discriminate|].
  cbn [orb]. intros H. now rewrite (IH H).
Qed.

Lemma traverse_single (doc : dict) (key : string) :
  traverse (VDict doc) [key] = dict_get key doc.
Proof. cbn [traverse]. now destruct (dict_get key doc). Qed.

(** The two branches of the loop body, dotted and top-level, are one rule. *)
Lemma match_clause_resolve (doc : dict) (key : string) (v : value) :
  match_clause doc key v =
  match resolve_path doc key with
  | Some current_val => match_value current_val v
  | None => Ok false
  end.
Proof.
  unfold match_clause, resolve_path.
  destruct (str_contains "." key) eqn:E; [reflexivity|].
  now rewrite (str_split_no_separator key E), traverse_single.
Qed.

Lemma traverse_app (v : value) (pre rest : list string) :
  traverse v (pre ++ rest) =
  match traverse v pre with
  | Some w => traverse w rest
  | None => None
  end.
Proof.
  revert v. induction pre as [|p pre IH]; intros v; [reflexivity|].
  cbn [app traverse]. destruct v; try reflexivity.
  destruct (dict_get p kvs); [apply IH | reflexivity].
Qed.

(** The walk stops for good at the first segment that is not a key of a
    mapping. *)
Lemma traverse_stuck (v w : value) (pre rest : list string) (part : string) :
  traverse v pre = Some w ->
  (forall d, w = VDict d -> dict_get part d = None) ->
  traverse v (pre ++ part :: rest) = None.
Proof.
  intros Hpre Hstuck. rewrite traverse_app, Hpre. cbn [traverse].
  destruct w; try reflexivity. now rewrite (Hstuck kvs eq_refl).
Qed.

Lemma match_query_true (doc : dict) (q : dict) :
  _match_query doc q = Ok true <->
  Forall (fun kv => match_clause doc (fst kv) (snd kv) = Ok true) q.
Proof.
  induction q as [|[key v] q IH]; cbn [_match_query].
  - split; [constructor | reflexivity].
  - split.
    + intros H. bind_inv H. destruct a; [|discriminate].
      constructor; [exact Ha | now apply IH].
    + intros H. inversion H as [|kv l Hc Hq]; subst. cbn [fst snd] in Hc.
      rewrite Hc. cbn [bind]. now apply IH.
Qed.

Lemma match_query_false_at (doc : dict) (before after : dict) (key : string)
    (v : value) :
  Forall (fun kv => ~ raises (match_clause doc (fst kv) (snd kv))) before ->
  match_clause doc key v = Ok false ->
  _match_query doc (before ++ (key, v) :: after) = Ok false.
Proof.
  intros Hb Hc. induction before as [|[k0 v0] before IH]; cbn [app _match_query].
  - rewrite Hc. reflexivity.
  - inversion Hb as [|kv l H0 Hrest]; subst. cbn [fst snd] in H0.
    destruct (match_clause doc k0 v0) as [[|]|e]; cbn [bind].
    + now apply IH.
    + reflexivity.
    + exfalso. apply H0. now exists e.
Qed.

Lemma match_clause_true (doc : dict) (key : string) (v : value) :
  match_clause doc key v = Ok true <-> clause_holds doc (key, v).
Proof.
  rewrite match_clause_resolve. unfold clause_holds. cbn [fst snd].
  destruct (resolve_path doc key) as [cur|]; split.
  - intros H. now exists cur.
  - now intros (c & [= <-] & H).
  - discriminate.
  - now intros (c & [=] & _).
Qed.


(** C10: a clause whose value is a mapping with none of [$in], [$gte],
    [$lte] asks only that the path resolve: it holds of every document in
    which the field is present, whatever the field's value, and of no
    other. *)
Theorem unrecognised_operators_are_vacuous (doc : dict) (key : string)
    (ops : dict)
    (Hin : dict_get "$in" ops = None)
    (Hgte : dict_get "$gte" ops = None)
    (Hlte : dict_get "$lte" ops = None) :
  match_clause doc key (VDict ops) =
  Ok (match resolve_path doc key with Some _ => true | None => false end) /\
  (forall current_val,
     resolve_path doc key = Some current_val ->
     _match_query doc [(key, VDict ops)] = Ok true).
Proof.
  assert (H : match_clause doc key (VDict ops) =
              Ok (match resolve_path doc key with
                  | Some _ => true | None => false end)).
  { rewrite match_clause_resolve.
    destruct (resolve_path doc key); [|reflexivity].
    unfold match_value. now rewrite Hin, Hgte, Hlte. }
  split; [exact H|].
  intros cur Hcur. cbn [_match_query]. rewrite H, Hcur. reflexivity.
Qed.

Lemma unrecognised_operators_are_vacuous_witness :
  _match_query chess_club [("participants", VDict [("$ne", VStr "nobody")])]
  = Ok true /\
  _match_query chess_club [("schedule_details.days", VDict [])] = Ok true.
Proof.
  split.
  - apply (unrecognised_operators_are_vacuous chess_club "participants"
             [("$ne", VStr "nobody")] eq_refl eq_refl eq_refl)
      with (current_val := VList [VStr "michael@mergington.edu"]).
    reflexivity.
  - apply (unrecognised_operators_are_vacuous chess_club
             "schedule_details.days" [] eq_refl eq_refl eq_refl)
      with (current_val := VList [VStr "Monday"; VStr "Friday"]).
    reflexivity.
Defined.

(** ** Ordering operators *)

Lemma op_holds_ge_lt (c : comparison) :
  op_holds OpGe c = negb (op_holds OpLt c).
Proof. now destruct c. Qed.

Lemma op_holds_le_gt (c : comparison) :
  op_holds OpLe c = negb (op_holds OpGt c).
Proof. now destruct c. Qed.

(** Two operators that are each other's negation on every outcome of a
    three-way comparison are each other's negation on values, and raise
    together. *)
Lemma py_compare_negated (op op' : cmp_op) :
  (forall c, op_holds op' c = negb (op_holds op c)) ->
  forall a b,
    py_compare op' a b = (r <- py_compare op a b ;; Ok (negb r)).
Proof.
  intros Hop a. induction a as [|x|m|s|xs IH|kvs _] using value_nested_ind;
    intros [|y|n|t|ys|kvs']; cbn [py_compare bind]; try reflexivity;
    try (now rewrite Hop).
  revert ys. induction IH as [|x xs Hx _ IHxs]; intros ys.
  - destruct ys; cbn [bind]; now rewrite Hop.
  - destruct ys as [|y ys]; [cbn [bind]; now rewrite Hop|].
    destruct (py_eq x y); [apply IHxs | apply Hx].
Qed.

Lemma py_ge_not_lt (a b : value) :
  py_compare OpGe a b = (r <- py_compare OpLt a b ;; Ok (negb r)).
Proof. apply py_compare_negated, op_holds_ge_lt. Qed.

Lemma py_le_not_gt (a b : value) :
  py_compare OpLe a b = (r <- py_compare OpGt a b ;; Ok (negb r)).
Proof. apply py_compare_negated, op_holds_le_gt. Qed.

Lemma any_in_list (items xs : list value) :
  any_in items (VList xs) =
  Ok (existsb (fun item => existsb (fun x => py_eq x item) xs) items).
Proof.
  induction items as [|item items IH]; [reflexivity|].
  cbn [any_in py_in bind existsb].
  destruct (existsb (fun x => py_eq x item) xs); [reflexivity | exact IH].
Qed.

Lemma op_holds_ge_Z (m n : Z) : op_holds OpGe (m ?= n) = (n <=? m).
Proof.
  destruct (Z.compare_spec m n) as [H|H|H]; cbn [op_holds]; symmetry.
  - apply Z.leb_le. lia.
  - apply Z.leb_gt. lia.
  - apply Z.leb_le. lia.
Qed.

Lemma op_holds_le_Z (m n : Z) : op_holds OpLe (m ?= n) = (m <=? n).
Proof.
  destruct (Z.compare_spec m n) as [H|H|H]; cbn [op_holds]; symmetry.
  - apply Z.leb_le. lia.
  - apply Z.leb_le. lia.
  - apply Z.leb_gt. lia.
Qed.

Lemma match_value_in (current_val : value) (ops : dict) (candidates : value) :
  dict_get "$in" ops = Some candidates ->
  match_value current_val (VDict ops) =
  (items <- py_iter candidates ;; any_in items current_val).
Proof. unfold match_value. now intros ->. Qed.

Lemma match_value_gte (current_val : value) (ops : dict) (bound : value) :
  dict_get "$in" ops = None ->
  dict_get "$gte" ops = Some bound ->
  match_value current_val (VDict ops) = py_compare OpGe current_val bound.
Proof. unfold match_value. intros -> ->. now rewrite py_ge_not_lt. Qed.

Lemma match_value_lte (current_val : value) (ops : dict) (bound : value) :
  dict_get "$in" ops = None ->
  dict_get "$gte" ops = None ->
  dict_get "$lte" ops = Some bound ->
  match_value current_val (VDict ops) = py_compare OpLe current_val bound.
Proof. unfold match_value. intros -> -> ->. now rewrite py_le_not_gt. Qed.

Lemma match_at_least_twenty (doc_id : value) (doc : dict) :
  capacity_well_typed doc ->
  _match_query (materialise (doc_id, doc)) at_least_twenty
  = Ok (seats_twenty (doc_id, doc)).
Proof.
  unfold capacity_well_typed, seats_twenty, capacity, materialise, at_least_twenty.
  cbn [fst snd _match_query]. intros Hty.
  rewrite match_clause_resolve.
  replace (resolve_path (dict_set "_id" doc_id doc) "max_participants")
    with (dict_get "max_participants" doc).
  2:{ unfold resolve_path.
      rewrite (str_split_no_separator "max_participants" eq_refl).
      rewrite traverse_single. symmetry. now apply dict_get_set_other. }
  destruct (dict_get "max_participants" doc) as [[| |n| | |]|];
    try contradiction; [|reflexivity].
  rewrite (match_value_gte (VInt n) [("$gte", VInt 20)] (VInt 20)
             eq_refl eq_refl).
  cbn [py_compare bind]. rewrite op_holds_ge_Z.
  now destruct (20 <=? n).
Qed.

Lemma find_at_least_twenty (data : store) :
  Forall (fun entry => capacity_well_typed (snd entry)) data ->
  find data (Some at_least_twenty)
  = Ok (map materialise (filter seats_twenty data)).
Proof.
  induction 1 as [|[doc_id doc] data Hty _ IH]; [reflexivity|].
  rewrite find_cons. cbn [filter].
  rewrite (match_at_least_twenty doc_id doc Hty). cbn [bind].
  rewrite IH. cbn [bind].
  now destruct (seats_twenty (doc_id, doc)).
Qed.

(** C4: on a field the path resolves to, a [$in] clause accepts exactly
    when the field's list and the operator's list have an element in
    common; a [$gte] clause is Python's [field >= bound] and a [$lte] clause
    its [field <= bound] (for integers, the usual order); and the filter
    [{"max_participants": {"$gte": 20}}] makes [find] return the documents
    whose capacity is at least 20, those and no others, in store order. *)
Theorem operator_clauses :
  (forall doc key ops current_val,
     resolve_path doc key = Some current_val ->
     (forall candidates xs,
        dict_get "$in" ops = Some (VList candidates) ->
        current_val = VList xs ->
        match_clause doc key (VDict ops) = Ok true <->
        exists c x, In c candidates /\ In x xs /\ py_eq x c = true) /\
     (forall candidates xs,
        dict_get "$in" ops = Some (VList candidates) ->
        current_val = VList xs ->
        ~ raises (match_clause doc key (VDict ops))) /\
     (forall bound,
        dict_get "$in" ops = None ->
        dict_get "$gte" ops = Some bound ->
        match_clause doc key (VDict ops) = py_compare OpGe current_val bound) /\
     (forall bound,
        dict_get "$in" ops = None ->
        dict_get "$gte" ops = None ->
        dict_get "$lte" ops = Some bound ->
        match_clause doc key (VDict ops) = py_compare OpLe current_val bound) /\
     (forall m n,
        current_val = VInt m ->
        match_clause doc key (VDict [("$gte", VInt n)]) = Ok true <-> n <= m) /\
     (forall m n,
        current_val = VInt m ->
        match_clause doc key (VDict [("$lte", VInt n)]) = Ok true <-> m <= n)) /\
  (forall data,
     Forall (fun entry => capacity_well_typed (snd entry)) data ->
     find data (Some at_least_twenty)
     = Ok (map materialise (filter seats_twenty data))).
Proof.
  split; [|exact find_at_least_twenty].
  intros doc key ops cur Hres.
  assert (Hclause : forall v, match_clause doc key v = match_value cur v).
  { intros v. now rewrite match_clause_resolve, Hres. }
  split; [|split; [|split; [|split; [|split]]]].
  - intros candidates xs Hin ->. rewrite Hclause.
    rewrite (match_value_in _ _ _ Hin). cbn [py_iter bind].
    rewrite any_in_list. split.
    + intros [= H].
      apply existsb_exists in H. destruct H as (c & Hc & H).
      apply existsb_exists in H. destruct H as (x & Hx & H).
      now exists c, x.
    + intros (c & x & Hc & Hx & Heq). f_equal.
      apply existsb_exists. exists c. split; [exact Hc|].
      apply existsb_exists. now exists x.
  - intros candidates xs Hin -> [e He]. rewrite Hclause in He.
    rewrite (match_value_in _ _ _ Hin) in He. cbn [py_iter bind] in He.
    rewrite any_in_list in He. discriminate He.
  - intros bound Hin Hgte. rewrite Hclause. now apply match_value_gte.
  - intros bound Hin Hgte Hlte. rewrite Hclause. now apply match_value_lte.
  - intros m n ->. rewrite !Hclause.
    rewrite (match_value_gte (VInt m) [("$gte", VInt n)] (VInt n)
               eq_refl eq_refl).
    cbn [py_compare]. rewrite op_holds_ge_Z. rewrite <- Z.leb_le.
    split; [now intros [= E] | now intros ->].
  - intros m n ->. rewrite !Hclause.
    rewrite (match_value_lte (VInt m) [("$lte", VInt n)] (VInt n)
               eq_refl eq_refl eq_refl).
    cbn [py_compare]. rewrite op_holds_le_Z. rewrite <- Z.leb_le.
    split; [now intros [= E] | now intros ->].
Qed.

Lemma operator_clauses_witness :
  match_clause chess_club "schedule_details.days"
    (VDict [("$in", VList [VStr "Saturday"; VStr "Friday"])]) = Ok true /\
  find two_clubs (Some at_least_twenty)
  = Ok [[("max_participants", VInt 20);
         ("participants", VList [VStr "emma@mergington.edu"]);
         ("_id", VStr "Programming Class")]].
Proof.
  destruct operator_clauses as [Hclause Hfind]. split.
  - destruct (Hclause chess_club "schedule_details.days"
                [("$in", VList [VStr "Saturday"; VStr "Friday"])]
                (VList [VStr "Monday"; VStr "Friday"]) eq_refl) as (Hin & _).
    apply (Hin [VStr "Saturday"; VStr "Friday"] [VStr "Monday"; VStr "Friday"]
             eq_refl eq_refl).
    exists (VStr "Friday"), (VStr "Friday").
    split; [right; left; reflexivity|].
    split; [right; left; reflexivity | reflexivity].
  - rewrite (Hfind two_clubs); [reflexivity|].
    constructor; [exact I|]. constructor; [exact I | constructor].
Defined.

(** ** [$push] *)

Lemma push_field_elements (doc : dict) (field : string) (v : value)
    (xs : list value) :
  field_elements doc field = Some xs ->
  push_field doc field v = Ok (dict_set field (VList (xs ++ [v])) doc).
Proof.
  unfold field_elements, push_field.
  destruct (dict_get field doc) as [[| | | |ys|]|]; try discriminate;
    now intros [= <-].
Qed.

Lemma find_one_found (data : store) (q : dict) (doc_id : value) (doc : dict) :
  dict_get "_id" q = Some doc_id ->
  hashable doc_id = true ->
  store_get doc_id data = Some doc ->
  find_one data (VDict q) = Ok (Some (materialise (doc_id, doc))).
Proof.
  intros Hq Hh Hg. unfold find_one, store_has, store_index.
  rewrite Hq, Hh, Hg. reflexivity.
Qed.

(** C5: for a stored document with key K, [update_one] with a [$push] of V
    on a field F other than the key field appends V once, at the end of the
    list F held (the empty list when F was absent, so that F becomes [[V]]),
    and a [find_one] on K afterwards returns the document with that list
    under F. *)
Theorem push_appends_once (data : store) (q : dict) (doc_id : value)
    (doc : dict) (update : dict) (field : string) (v : value)
    (xs : list value)
    (Hq : dict_get "_id" q = Some doc_id)
    (Hh : hashable doc_id = true)
    (Hg : store_get doc_id data = Some doc)
    (Hpush : dict_get "$push" update = Some (VDict [(field, v)]))
    (Hpull : dict_get "$pull" update = None)
    (Hfield : field <> "_id")
    (Hxs : field_elements doc field = Some xs) :
  exists data' found,
    update_one data (VDict q) update = Ok (data', 1) /\
    find_one data' (VDict q) = Ok (Some found) /\
    dict_get field found = Some (VList (xs ++ [v])) /\
    (dict_get field doc = None -> dict_get field found = Some (VList [v])).
Proof.
  set (doc' := dict_set field (VList (xs ++ [v])) doc).
  exists (store_set doc_id doc' data), (materialise (doc_id, doc')).
  assert (Hfound : dict_get field (materialise (doc_id, doc'))
                   = Some (VList (xs ++ [v]))).
  { unfold materialise. cbn [fst snd].
    rewrite dict_get_set_other by congruence. apply dict_get_set_same. }
  split; [|split; [|split]].
  - rewrite (update_one_found data q doc_id doc update Hq Hh Hg).
    rewrite (apply_operator_single _ _ _ _ _ _ Hpush).
    rewrite (push_field_elements _ _ _ _ Hxs). cbn [bind].
    rewrite (apply_operator_absent _ _ _ _ Hpull). reflexivity.
  - apply find_one_found; [exact Hq | exact Hh |].
    now apply store_get_set_same.
  - exact Hfound.
  - intros Habs. rewrite Hfound. unfold field_elements in Hxs.
    rewrite Habs in Hxs. now injection Hxs as <-.
Qed.

Lemma push_appends_once_witness :
  exists data',
    update_one two_clubs (VDict [("_id", VStr "Chess Club")])
      [("$push", VDict [("participants", VStr "daniel@mergington.edu")])]
    = Ok (data', 1) /\
    exists found,
      find_one data' (VDict [("_id", VStr "Chess Club")]) = Ok (Some found) /\
      dict_get "participants" found
      = Some (VList [VStr "michael@mergington.edu";
                     VStr "daniel@mergington.edu"]).
Proof.
  destruct (push_appends_once two_clubs [("_id", VStr "Chess Club")]
              (VStr "Chess Club")
              [("max_participants", VInt 12);
               ("participants", VList [VStr "michael@mergington.edu"])]
              [("$push", VDict [("participants", VStr "daniel@mergington.edu")])]
              "participants" (VStr "daniel@mergington.edu")
              [VStr "michael@mergington.edu"]
              eq_refl eq_refl eq_refl eq_refl eq_refl)
    as (data' & found & Hu & Hf & Hl & _).
  - discriminate.
  - reflexivity.
  - exists data'. split; [exact Hu|]. exists found. split; [exact Hf | exact Hl].
Defined.

(** ** The unique-days aggregation *)

Lemma strings_of_map (xs : list value) (ss : list string) :
  strings_of xs = Some ss -> xs = map VStr ss.
Proof.
  revert ss. induction xs as [|x xs IH]; intros ss; cbn [strings_of].
  - now intros [= <-].
  - destruct x; try discriminate.
    destruct (strings_of xs) as [ss'|]; [|discriminate].
    intros [= <-]. cbn [map]. now rewrite (IH ss').
Qed.

Lemma days_of_well_formed (doc : dict) (names : list string) :
  day_names doc = Some names -> days_of doc = Ok (map VStr names).
Proof.
  unfold day_names, days_of.
  destruct (dict_get "schedule_details" doc) as [[| | | | |details]|];
    try discriminate.
  - cbn [py_in py_getitem bind]. unfold dict_has.
    destruct (dict_get "days" details) as [[| | | |days|]|]; try discriminate.
    + intros H. cbn [bind py_iter]. now rewrite (strings_of_map _ _ H).
    + now intros [= <-].
  - now intros [= <-].
Qed.

Lemma existsb_py_eq_names (seen : list string) (d : string) :
  existsb (fun x => py_eq x (VStr d)) (map VStr seen)
  = existsb (fun s => String.eqb s d) seen.
Proof.
  induction seen as [|s seen IH]; [reflexivity|].
  cbn [map existsb py_eq]. now rewrite IH.
Qed.

Lemma set_add_all_names (days seen : list string) :
  set_add_all (map VStr days) (map VStr seen)
  = Ok (map VStr (fold_left add_name days seen)).
Proof.
  revert seen. induction days as [|d days IH]; intros seen; [reflexivity|].
  cbn [map set_add_all fold_left]. unfold set_add at 1. cbn [hashable bind].
  rewrite existsb_py_eq_names. rewrite <- IH. unfold add_name.
  destruct (existsb (fun s => String.eqb s d) seen); [reflexivity|].
  now rewrite map_app.
Qed.

Lemma collect_days_names (data : store) (names seen : list string) :
  scheduled_days data = Some names ->
  collect_days data (map VStr seen)
  = Ok (map VStr (fold_left add_name names seen)).
Proof.
  revert names seen. induction data as [|[doc_id doc] data IH];
    intros names seen; cbn [scheduled_days collect_days].
  - now intros [= <-].
  - destruct (day_names doc) as [here|] eqn:Hhere; [|discriminate].
    destruct (scheduled_days data) as [later|]; [|discriminate].
    intros [= <-]. rewrite (days_of_well_formed _ _ Hhere). cbn [bind].
    rewrite set_add_all_names. cbn [bind].
    rewrite fold_left_app. now apply IH.
Qed.

Lemma py_lt_names (x y : string) :
  py_compare OpLt (VStr x) (VStr y) = Ok (String.ltb x y).
Proof.
  cbn [py_compare]. unfold String.ltb. now destruct (String.compare x y).
Qed.

Lemma sorted_insert_names (x : string) (l : list string) :
  sorted_insert (VStr x) (map VStr l) = Ok (map VStr (insert_name x l)).
Proof.
  induction l as [|y l IH]; [reflexivity|].
  cbn [map sorted_insert insert_name]. rewrite py_lt_names. cbn [bind].
  destruct (String.ltb x y); [reflexivity|].
  rewrite IH. reflexivity.
Qed.

Lemma py_sorted_names (l : list string) :
  py_sorted (map VStr l) = Ok (map VStr (sort_names l)).
Proof.
  induction l as [|x l IH]; [reflexivity|].
  cbn [map py_sorted sort_names]. rewrite IH. cbn [bind].
  apply sorted_insert_names.
Qed.

(** On well-formed documents the method computes [unique_days]. *)
Lemma aggregate_refines (data : store) (pipeline : value)
    (names : list string) :
  scheduled_days data = Some names ->
  aggregate data pipeline
  = Ok (map (fun d => [("_id", VStr d)]) (unique_days names)).
Proof.
  intros H. unfold aggregate.
  change (@nil value) with (map VStr []).
  rewrite (collect_days_names data names [] H). cbn [bind].
  rewrite py_sorted_names. cbn [bind].
  now rewrite map_map.
Qed.

Lemma existsb_eqb_In (seen : list string) (d : string) :
  existsb (fun s => String.eqb s d) seen = true <-> In d seen.
Proof.
  rewrite existsb_exists. split.
  - intros (s & Hs & E). apply String.eqb_eq in E. now subst s.
  - intros H. exists d. split; [exact H | apply String.eqb_refl].
Qed.

Lemma add_name_In (seen : list string) (d x : string) :
  In x (add_name seen d) <-> In x seen \/ x = d.
Proof.
  unfold add_name. destruct (existsb (fun s => String.eqb s d) seen) eqn:E.
  - apply existsb_eqb_In in E. split; [now left|].
    intros [H| ->]; assumption.
  - rewrite in_app_iff. cbn [In]. split.
    + intros [H|[H|[]]]; [now left | right; now symmetry].
    + intros [H| ->]; [now left | right; now left].
Qed.

Lemma add_name_NoDup (seen : list string) (d : string) :
  NoDup seen -> NoDup (add_name seen d).
Proof.
  intros H. unfold add_name.
  destruct (existsb (fun s => String.eqb s d) seen) eqn:E; [exact H|].
  apply NoDup_app; [exact H | repeat constructor; intros [] |].
  intros x Hx [<-|[]]. apply existsb_eqb_In in Hx. congruence.
Qed.

Lemma fold_add_name_In (names seen : list string) (x : string) :
  In x (fold_left add_name names seen) <-> In x seen \/ In x names.
Proof.
  revert seen. induction names as [|d names IH]; intros seen; cbn [fold_left In].
  - tauto.
  - rewrite IH, add_name_In. split.
    + intros [[H|H]|H]; [now left | right; left; now symmetry | right; now right].
    + intros [H|[H|H]]; [left; now left | left; right; now symmetry | now right].
Qed.

Lemma fold_add_name_NoDup (names seen : list string) :
  NoDup seen -> NoDup (fold_left add_name names seen).
Proof.
  revert seen. induction names as [|d names IH]; intros seen H; [exact H|].
  cbn [fold_left]. apply IH. now apply add_name_NoDup.
Qed.

Lemma insert_name_perm (x : string) (l : list string) :
  Permutation (x :: l) (insert_name x l).
Proof.
  induction l as [|y l IH]; cbn [insert_name]; [apply Permutation_refl|].
  destruct (String.ltb x y); [apply Permutation_refl|].
  eapply Permutation_trans; [apply perm_swap|]. now apply perm_skip.
Qed.

Lemma sort_names_perm (l : list string) : Permutation l (sort_names l).
Proof.
  induction l as [|x l IH]; cbn [sort_names]; [constructor|].
  eapply Permutation_trans; [apply perm_skip, IH | apply insert_name_perm].
Qed.

Lemma name_lt_le (x y : string) : name_lt x y -> name_le x y.
Proof.
  unfold name_lt, name_le, String.ltb. rewrite (String.compare_antisym y x).
  now destruct (String.compare x y).
Qed.

Lemma name_le_neq_lt (x y : string) : name_le x y -> x <> y -> name_lt x y.
Proof.
  unfold name_lt, name_le, String.ltb. intros H Hne.
  rewrite (String.compare_antisym y x) in H.
  destruct (String.compare x y) eqn:E; cbn [CompOpp] in H; try reflexivity.
  - apply String.compare_eq_iff in E. congruence.
  - discriminate H.
Qed.

Lemma insert_name_sorted (x : string) (l : list string) :
  Sorted name_le l -> Sorted name_le (insert_name x l).
Proof.
  induction 1 as [|y l Hs IH Hhd]; cbn [insert_name].
  - repeat constructor.
  - destruct (String.ltb x y) eqn:E.
    + constructor; [now constructor|]. constructor. now apply name_lt_le.
    + constructor; [exact IH|].
      destruct l as [|z l]; cbn [insert_name].
      * constructor. exact E.
      * destruct (String.ltb x z); constructor; [exact E|].
        now inversion Hhd.
Qed.

Lemma sort_names_sorted (l : list string) : Sorted name_le (sort_names l).
Proof.
  induction l as [|x l IH]; cbn [sort_names]; [constructor|].
  now apply insert_name_sorted.
Qed.

Lemma sorted_strict (l : list string) :
  Sorted name_le l -> NoDup l -> Sorted name_lt l.
Proof.
  induction 1 as [|x l Hs IH Hhd]; intros Hnd; [constructor|].
  inversion Hnd as [|x' l' Hnotin Hnd']; subst.
  constructor; [now apply IH|].
  destruct Hhd as [|y l Hxy]; constructor.
  apply name_le_neq_lt; [exact Hxy|].
  intros ->. apply Hnotin. now left.
Qed.

(** [unique_days] is what its name says: ascending without repetition, and
    made of the given names, all of them. *)
Lemma unique_days_spec (names : list string) :
  Sorted name_lt (unique_days names) /\
  NoDup (unique_days names) /\
  (forall d, In d (unique_days names) <-> In d names).
Proof.
  unfold unique_days, distinct_names.
  assert (Hnd : NoDup (sort_names (fold_left add_name names []))).
  { eapply Permutation_NoDup; [apply sort_names_perm|].
    apply fold_add_name_NoDup. constructor. }
  split; [|split].
  - apply sorted_strict; [apply sort_names_sorted | exact Hnd].
  - exact Hnd.
  - intros d. split.
    + intros H.
      apply (Permutation_in _ (Permutation_sym (sort_names_perm _))) in H.
      apply fold_add_name_In in H. destruct H as [[]|H]. exact H.
    + intros H. eapply Permutation_in; [apply sort_names_perm|].
      apply fold_add_name_In. now right.
Qed.

Lemma scheduled_days_In (data : store) (names : list string) (d : string) :
  scheduled_days data = Some names ->
  In d names <->
  exists entry ds,
    In entry data /\ day_names (snd entry) = Some ds /\ In d ds.
Proof.
  revert names. induction data as [|[doc_id doc] data IH]; intros names;
    cbn [scheduled_days].
  - intros [= <-]. split; [intros [] | intros (e & ds & [] & _)].
  - destruct (day_names doc) as [here|] eqn:Hhere; [|discriminate].
    destruct (scheduled_days data) as [later|]; [|discriminate].
    intros [= <-]. rewrite in_app_iff, (IH later eq_refl). split.
    + intros [H|(e & ds & He & Hds & Hd)].
      * exists (doc_id, doc), here. split; [now left | now split].
      * exists e, ds. split; [now right | now split].
    + intros (e & ds & [<-|He] & Hds & Hd).
      * left. cbn [snd] in Hds. congruence.
      * right. now exists e, ds.
Qed.

(** C8, as stated, fails on its own example: the records [aggregate] returns
    have the single field ["_id"], not ["day"]. *)
Lemma aggregate_records_are_not_day_records :
  aggregate week_data (VList [])
  <> Ok [[("day", VStr "Friday")]; [("day", VStr "Monday")]].
Proof. discriminate. Qed.

(** C8, amended: over documents whose [schedule_details.days], where
    present, is a list of day names, [aggregate] returns the names that
    occur in some document, each once, in ascending order, each as a record
    with the single field ["_id"]; over days [[Monday, Friday]] and
    [[Friday]] it returns [[{"_id": "Friday"}, {"_id": "Monday"}]]. *)
Theorem aggregate_unique_days :
  (forall data pipeline names,
     scheduled_days data = Some names ->
     exists days,
       aggregate data pipeline = Ok (map (fun d => [("_id", VStr d)]) days) /\
       Sorted name_lt days /\
       NoDup days /\
       (forall d, In d days <->
          exists entry ds,
            In entry data /\ day_names (snd entry) = Some ds /\ In d ds)) /\
  aggregate week_data (VList [])
  = Ok [[("_id", VStr "Friday")]; [("_id", VStr "Monday")]].
Proof.
  split; [|reflexivity].
  intros data pipeline names Hnames. exists (unique_days names).
  destruct (unique_days_spec names) as (Hs & Hnd & Hin).
  split; [now apply aggregate_refines|]. split; [exact Hs|].
  split; [exact Hnd|].
  intros d. rewrite Hin. now apply scheduled_days_In.
Qed.

Lemma aggregate_unique_days_witness :
  exists days,
    aggregate week_data (VList [])
    = Ok (map (fun d => [("_id", VStr d)]) days) /\
    Sorted name_lt days /\ NoDup days.
Proof.
  destruct aggregate_unique_days as [H _].
  destruct (H week_data (VList []) ["Monday"; "Friday"; "Friday"] eq_refl)
    as (days & Ha & Hs & Hnd & _).
  exists days. split; [exact Ha|]. split; [exact Hs | exact Hnd].
Defined.

(** ** Copies on the heap *)

Lemma nth_error_extend (h new : Heap.heap) (l : nat) (o : Heap.obj) :
  nth_error h l = Some o -> nth_error (h ++ new) l = Some o.
Proof.
  intros H. rewrite nth_error_app1; [exact H|].
  apply nth_error_Some. congruence.
Qed.

Lemma nth_error_update_other (h : Heap.heap) (l l' : nat) (o : Heap.obj) :
  l <> l' -> nth_error (Heap.update l o h) l' = nth_error h l'.
Proof.
  revert l l'. induction h as [|o' h IH]; intros l l' Hne.
  - now destruct l.
  - destruct l as [|l], l' as [|l']; cbn [Heap.update nth_error]; try reflexivity.
    + congruence.
    + apply IH. congruence.
Qed.

Lemma nth_error_update_same (h : Heap.heap) (l : nat) (o o' : Heap.obj) :
  nth_error h l = Some o' -> nth_error (Heap.update l o h) l = Some o.
Proof.
  revert l. induction h as [|o0 h IH]; intros l.
  - now destruct l.
  - destruct l as [|l]; cbn [Heap.update nth_error]; [reflexivity | apply IH].
Qed.

Lemma update_length (h : Heap.heap) (l : nat) (o : Heap.obj) :
  List.length (Heap.update l o h) = List.length h.
Proof.
  revert l. induction h as [|o0 h IH]; intros l; [now destruct l|].
  destruct l as [|l]; cbn [Heap.update List.length]; [reflexivity|].
  now rewrite IH.
Qed.

(** A representation survives any change of heap and of address predicate
    that keeps the objects it goes through. *)
Lemma repr_transport (P Q : nat -> Prop) (h h' : Heap.heap) :
  (forall l o, P l -> nth_error h l = Some o ->
               Q l /\ nth_error h' l = Some o) ->
  forall v r, Heap.repr P h r v -> Heap.repr Q h' r v.
Proof.
  intros Hkeep v.
  induction v as [| | | |xs IH|kvs IH] using value_nested_ind; intros r;
    cbn [Heap.repr]; try (intros H; exact H).
  - intros (l & items & -> & HP & Hl & Hitems).
    destruct (Hkeep l _ HP Hl) as [HQ Hl'].
    exists l, items. repeat split; try assumption.
    clear Hl Hl' HP HQ. revert items Hitems.
    induction IH as [|x xs Hx _ IHxs]; intros [|i items]; try (intros H; exact H).
    intros [Hi Hrest]. split; [now apply Hx | now apply IHxs].
  - intros (l & fields & -> & HP & Hl & Hfields).
    destruct (Hkeep l _ HP Hl) as [HQ Hl'].
    exists l, fields. repeat split; try assumption.
    clear Hl Hl' HP HQ. revert fields Hfields.
    induction IH as [|kv kvs Hkv _ IHkvs]; intros [|f fields];
      try (intros H; exact H).
    intros (Hk & Hf & Hrest). split; [exact Hk|].
    split; [now apply Hkv | now apply IHkvs].
Qed.

Lemma repr_items_transport (P Q : nat -> Prop) (h h' : Heap.heap) :
  (forall l o, P l -> nth_error h l = Some o ->
               Q l /\ nth_error h' l = Some o) ->
  forall xs items, Heap.repr_items P h items xs -> Heap.repr_items Q h' items xs.
Proof.
  intros Hkeep xs. induction xs as [|x xs IH]; intros [|i items];
    cbn [Heap.repr_items]; try (intros H; exact H).
  intros [Hi Hrest]. split; [now apply (repr_transport P Q h h') | now apply IH].
Qed.

Lemma repr_fields_transport (P Q : nat -> Prop) (h h' : Heap.heap) :
  (forall l o, P l -> nth_error h l = Some o ->
               Q l /\ nth_error h' l = Some o) ->
  forall kvs fields,
    Heap.repr_fields P h fields kvs -> Heap.repr_fields Q h' fields kvs.
Proof.
  intros Hkeep kvs. induction kvs as [|kv kvs IH]; intros [|f fields];
    cbn [Heap.repr_fields]; try (intros H; exact H).
  intros (Hk & Hf & Hrest). split; [exact Hk|].
  split; [now apply (repr_transport P Q h h') | now apply IH].
Qed.

Lemma repr_list_unfold (P : nat -> Prop) (h : Heap.heap) (r : Heap.ref)
    (xs : list value) :
  Heap.repr P h r (VList xs) <->
  exists l items,
    r = Heap.RObj l /\ P l /\ nth_error h l = Some (Heap.OList items) /\
    Heap.repr_items P h items xs.
Proof.
  cbn [Heap.repr].
  split; intros (l & items & Hr & HP & Hl & H); exists l, items;
    (split; [exact Hr|]; split; [exact HP|]; split; [exact Hl|]);
    clear Hl; revert items H;
    induction xs as [|x xs IH]; intros [|i items] H; try exact H;
    destruct H as [Hi Hrest]; (split; [exact Hi | now apply IH]).
Qed.

Lemma repr_dict_unfold (P : nat -> Prop) (h : Heap.heap) (r : Heap.ref)
    (kvs : dict) :
  Heap.repr P h r (VDict kvs) <->
  exists l fields,
    r = Heap.RObj l /\ P l /\ nth_error h l = Some (Heap.ODict fields) /\
    Heap.repr_fields P h fields kvs.
Proof.
  cbn [Heap.repr].
  split; intros (l & fields & Hr & HP & Hl & H); exists l, fields;
    (split; [exact Hr|]; split; [exact HP|]; split; [exact Hl|]);
    clear Hl; revert fields H;
    induction kvs as [|kv kvs IH]; intros [|f fields] H; try exact H;
    destruct H as (Hk & Hf & Hrest);
    (split; [exact Hk|]; split; [exact Hf | now apply IH]).
Qed.

Lemma depth_item (xs : list value) (x : value) :
  In x xs -> (Heap.depth x < Heap.depth (VList xs))%nat.
Proof.
  cbn [Heap.depth]. induction xs as [|y xs IH]; intros []; [subst y; lia|].
  specialize (IH H). lia.
Qed.

Lemma depth_field (kvs : dict) (kv : string * value) :
  In kv kvs -> (Heap.depth (snd kv) < Heap.depth (VDict kvs))%nat.
Proof.
  cbn [Heap.depth]. induction kvs as [|kv' kvs IH]; intros []; [subst kv'; lia|].
  specialize (IH H). lia.
Qed.

Lemma copy_items_spec (fuel : nat) (xs : list value) :
  Forall (copied fuel) xs ->
  forall items h,
    Heap.repr_items (fun _ => True) h items xs ->
    exists new items',
      Heap.copy_items (Heap.deepcopy fuel) h items = Ok (h ++ new, items') /\
      Heap.repr_items
        (fun l => List.length h <= l < List.length (h ++ new))%nat
        (h ++ new) items' xs.
Proof.
  induction 1 as [|x xs Hx _ IH]; intros [|i items] h; cbn [Heap.repr_items];
    try contradiction.
  - intros _. exists [], []. rewrite app_nil_r. now split.
  - intros [Hi Hrest].
    destruct (Hx h i Hi) as (n1 & i' & Ecopy & Hi').
    destruct (IH items (h ++ n1)) as (n2 & rest' & Erest & Hrest').
    { revert Hrest. apply repr_items_transport.
      intros l o _ Hl. split; [exact I | now apply nth_error_extend]. }
    exists (n1 ++ n2), (i' :: rest').
    cbn [Heap.copy_items]. rewrite Ecopy. cbn [bind]. rewrite Erest. cbn [bind].
    rewrite app_assoc. split; [reflexivity|]. split.
    + revert Hi'. apply repr_transport. intros l o [Hlo Hhi] Hl.
      split; [|now apply nth_error_extend].
      rewrite !length_app in *. lia.
    + revert Hrest'. apply repr_items_transport. intros l o [Hlo Hhi] Hl.
      split; [|exact Hl]. rewrite !length_app in *. lia.
Qed.

Lemma copy_fields_spec (fuel : nat) (kvs : dict) :
  Forall (fun kv => copied fuel (snd kv)) kvs ->
  forall fields h,
    Heap.repr_fields (fun _ => True) h fields kvs ->
    exists new fields',
      Heap.copy_fields (Heap.deepcopy fuel) h fields = Ok (h ++ new, fields') /\
      Heap.repr_fields
        (fun l => List.length h <= l < List.length (h ++ new))%nat
        (h ++ new) fields' kvs.
Proof.
  induction 1 as [|kv kvs Hkv _ IH]; intros [|[k i] fields] h;
    cbn [Heap.repr_fields]; try contradiction.
  - intros _. exists [], []. rewrite app_nil_r. now split.
  - cbn [fst snd]. intros (Hk & Hi & Hrest).
    destruct (Hkv h i Hi) as (n1 & i' & Ecopy & Hi').
    destruct (IH fields (h ++ n1)) as (n2 & rest' & Erest & Hrest').
    { revert Hrest. apply repr_fields_transport.
      intros l o _ Hl. split; [exact I | now apply nth_error_extend]. }
    exists (n1 ++ n2), ((k, i') :: rest').
    cbn [Heap.copy_fields]. rewrite Ecopy. cbn [bind]. rewrite Erest. cbn [bind].
    rewrite app_assoc. split; [reflexivity|]. cbn [fst snd].
    split; [exact Hk|]. split.
    + revert Hi'. apply repr_transport. intros l o [Hlo Hhi] Hl.
      split; [|now apply nth_error_extend].
      rewrite !length_app in *. lia.
    + revert Hrest'. apply repr_fields_transport. intros l o [Hlo Hhi] Hl.
      split; [|exact Hl]. rewrite !length_app in *. lia.
Qed.

(** With a recursion limit no smaller than its depth, a represented value
    is copied. *)
Lemma deepcopy_spec (v : value) :
  forall fuel, (Heap.depth v <= fuel)%nat -> copied fuel v.
Proof.
  induction v as [| | | |xs IH|kvs IH] using value_nested_ind;
    intros fuel Hfuel h r Hr.
  1-4: cbn [Heap.repr] in Hr; subst r; exists []; eexists;
       rewrite app_nil_r; split; [destruct fuel; reflexivity | reflexivity].
  - apply repr_list_unfold in Hr.
    destruct Hr as (l & items & -> & _ & Hl & Hitems).
    destruct fuel as [|fuel]; [cbn [Heap.depth] in Hfuel; lia|].
    destruct (copy_items_spec fuel xs) with (items := items) (h := h)
      as (new & items' & Ecopy & Hitems').
    { rewrite Forall_forall in IH |- *. intros x Hx. apply (IH x Hx).
      pose proof (depth_item xs x Hx). lia. }
    { exact Hitems. }
    exists (new ++ [Heap.OList items']), (Heap.RObj (List.length (h ++ new))).
    cbn [Heap.deepcopy]. rewrite Hl, Ecopy. cbn [bind].
    rewrite app_assoc. split; [reflexivity|].
    apply repr_list_unfold. exists (List.length (h ++ new)), items'.
    split; [reflexivity|]. split; [rewrite !length_app; cbn [List.length]; lia|].
    split; [now rewrite nth_error_app2, Nat.sub_diag by lia|].
    revert Hitems'. apply repr_items_transport. intros a o [Hlo Hhi] Ha.
    split; [|now apply nth_error_extend].
    rewrite !length_app in *. cbn [List.length]. lia.
  - apply repr_dict_unfold in Hr.
    destruct Hr as (l & fields & -> & _ & Hl & Hfields).
    destruct fuel as [|fuel]; [cbn [Heap.depth] in Hfuel; lia|].
    destruct (copy_fields_spec fuel kvs) with (fields := fields) (h := h)
      as (new & fields' & Ecopy & Hfields').
    { rewrite Forall_forall in IH |- *. intros kv Hkv. apply (IH kv Hkv).
      pose proof (depth_field kvs kv Hkv). lia. }
    { exact Hfields. }
    exists (new ++ [Heap.ODict fields']), (Heap.RObj (List.length (h ++ new))).
    cbn [Heap.deepcopy]. rewrite Hl, Ecopy. cbn [bind].
    rewrite app_assoc. split; [reflexivity|].
    apply repr_dict_unfold. exists (List.length (h ++ new)), fields'.
    split; [reflexivity|]. split; [rewrite !length_app; cbn [List.length]; lia|].
    split; [now rewrite nth_error_app2, Nat.sub_diag by lia|].
    revert Hfields'. apply repr_fields_transport. intros a o [Hlo Hhi] Ha.
    split; [|now apply nth_error_extend].
    rewrite !length_app in *. cbn [List.length]. lia.
Qed.

(** The copy of a dictionary is a new object placed after the copies of its
    fields, none of which is that object itself. *)
Lemma deepcopy_dict_spec (fuel : nat) (h : Heap.heap) (l : nat) (kvs : dict) :
  Heap.repr (fun _ => True) h (Heap.RObj l) (VDict kvs) ->
  (Heap.depth (VDict kvs) <= fuel)%nat ->
  exists new fields',
    Heap.deepcopy fuel h (Heap.RObj l)
    = Ok ((h ++ new) ++ [Heap.ODict fields'],
          Heap.RObj (List.length (h ++ new))) /\
    Heap.repr_fields
      (fun a => List.length h <= a < List.length (h ++ new))%nat
      (h ++ new) fields' kvs.
Proof.
  intros Hr Hfuel. apply repr_dict_unfold in Hr.
  destruct Hr as (l0 & fields & [= <-] & _ & Hl & Hfields).
  destruct fuel as [|fuel]; [cbn [Heap.depth] in Hfuel; lia|].
  destruct (copy_fields_spec fuel kvs) with (fields := fields) (h := h)
    as (new & fields' & Ecopy & Hfields').
  { rewrite Forall_forall. intros kv Hkv. apply deepcopy_spec.
    pose proof (depth_field kvs kv Hkv). lia. }
  { exact Hfields. }
  exists new, fields'. cbn [Heap.deepcopy]. rewrite Hl, Ecopy. cbn [bind].
  split; [reflexivity | exact Hfields'].
Qed.

Lemma update_last (h : Heap.heap) (o o' : Heap.obj) :
  Heap.update (List.length h) o (h ++ [o']) = h ++ [o].
Proof.
  induction h as [|o0 h IH]; [reflexivity|].
  cbn [List.length app Heap.update]. now rewrite IH.
Qed.

Lemma scalar_ref_repr (P : nat -> Prop) (h : Heap.heap) (v : value) :
  hashable v = true ->
  exists key, Heap.scalar_ref v = Some key /\ Heap.repr P h key v.
Proof.
  destruct v; cbn [hashable]; try discriminate; intros _;
    eexists; (split; [reflexivity|]); reflexivity.
Qed.

Lemma fields_set_repr (P : nat -> Prop) (h : Heap.heap) (k : string)
    (key : Heap.ref) (v : value) :
  Heap.repr P h key v ->
  forall kvs fields,
    Heap.repr_fields P h fields kvs ->
    Heap.repr_fields P h (Heap.fields_set k key fields) (dict_set k v kvs).
Proof.
  intros Hkey kvs. induction kvs as [|[k0 v0] kvs IH]; intros [|[k1 r1] fields];
    cbn [Heap.repr_fields]; try contradiction.
  - intros _. cbn [Heap.fields_set dict_set Heap.repr_fields fst snd].
    now repeat split.
  - cbn [fst snd]. intros (-> & Hv & Hrest).
    cbn [Heap.fields_set dict_set].
    destruct (String.eqb k k0); cbn [Heap.repr_fields fst snd].
    + now repeat split.
    + split; [reflexivity|]. split; [exact Hv | now apply IH].
Qed.

Lemma store_repr_get (h : Heap.heap) (data : Heap.store) (docs : store)
    (doc_id : value) :
  Heap.store_repr h data docs ->
  match store_get doc_id docs with
  | Some doc =>
      exists l, Heap.store_get doc_id data = Some l /\
                Heap.repr (fun _ => True) h (Heap.RObj l) (VDict doc)
  | None => Heap.store_get doc_id data = None
  end.
Proof.
  revert docs. induction data as [|[k l] data IH]; intros [|[k' doc] docs];
    cbn [Heap.store_repr]; try contradiction.
  - reflexivity.
  - intros (<- & Hdoc & Hrest). cbn [store_get Heap.store_get].
    destruct (py_eq k doc_id); [now exists l | now apply IH].
Qed.

(** Whatever happens to objects outside the heap the store was found in,
    the store holds the same documents. *)
Lemma store_repr_frame (h h' : Heap.heap) (data : Heap.store) (docs : store) :
  (forall a, (a < List.length h)%nat -> nth_error h' a = nth_error h a) ->
  Heap.store_repr h data docs -> Heap.store_repr h' data docs.
Proof.
  intros Hsame. revert docs.
  induction data as [|[k l] data IH]; intros [|[k' doc] docs];
    cbn [Heap.store_repr]; try contradiction; [exact (fun H => H)|].
  intros (Hk & Hdoc & Hrest). split; [exact Hk|]. split; [|now apply IH].
  revert Hdoc. apply repr_transport. intros a o _ Ha.
  split; [exact I|]. rewrite Hsame; [exact Ha|].
  apply nth_error_Some. congruence.
Qed.

(** [find_one] on the heap, for a key the store holds: the result is a new
    dictionary object, standing for what the method returns by value,
    through objects that did not exist before the call; the heap the store
    lives in is still there as it was. *)
Lemma heap_find_one_found (fuel : nat) (h : Heap.heap) (data : Heap.store)
    (docs : store) (q : dict) (doc_id : value) (doc : dict) :
  Heap.store_repr h data docs ->
  dict_get "_id" q = Some doc_id ->
  hashable doc_id = true ->
  store_get doc_id docs = Some doc ->
  (Heap.depth (VDict doc) <= fuel)%nat ->
  exists new l',
    Heap.find_one fuel h data (VDict q) = Ok (h ++ new, Some (Heap.RObj l')) /\
    Heap.repr (fun a => List.length h <= a < List.length (h ++ new))%nat
      (h ++ new) (Heap.RObj l') (VDict (materialise (doc_id, doc))).
Proof.
  intros Hstore Hq Hh Hg Hfuel.
  pose proof (store_repr_get h data docs doc_id Hstore) as Hget.
  rewrite Hg in Hget. destruct Hget as (l & Hl & Hdoc).
  destruct (deepcopy_dict_spec fuel h l doc Hdoc Hfuel)
    as (new & fields' & Ecopy & Hfields').
  destruct (scalar_ref_repr
              (fun a => List.length h <= a < List.length (h ++ new))%nat
              (h ++ new) doc_id Hh) as (key & Hkey & Hkeyrepr).
  exists (new ++ [Heap.ODict (Heap.fields_set "_id" key fields')]),
    (List.length (h ++ new)).
  split.
  - unfold Heap.find_one. rewrite Hq, Hkey, Hl, Ecopy. cbn [bind].
    unfold Heap.setitem.
    rewrite nth_error_app2, Nat.sub_diag by lia. cbn [nth_error bind].
    now rewrite update_last, app_assoc.
  - apply repr_dict_unfold.
    exists (List.length (h ++ new)), (Heap.fields_set "_id" key fields').
    split; [reflexivity|].
    split; [rewrite !length_app; cbn [List.length]; lia|].
    split; [now rewrite app_assoc, nth_error_app2, Nat.sub_diag by lia|].
    unfold materialise. cbn [fst snd].
    apply (repr_fields_transport
             (fun a => List.length h <= a < List.length (h ++ new))%nat
             _ (h ++ new)).
    + intros a o [Hlo Hhi] Ha. split.
      * rewrite !length_app in *. cbn [List.length]. lia.
      * rewrite app_assoc. now apply nth_error_extend.
    + now apply fields_set_repr.
Qed.

Lemma mutated_below (n : nat) (h h' : Heap.heap) :
  mutated (fun a => n <= a)%nat h h' ->
  (n <= List.length h)%nat ->
  (List.length h <= List.length h')%nat /\
  forall a, (a < n)%nat -> nth_error h' a = nth_error h a.
Proof.
  intros Hm Hn. induction Hm as [|h' a' o _ [Hlen IH] Ha'|h' o _ [Hlen IH]].
  - split; [lia | reflexivity].
  - split; [now rewrite update_length|].
    intros a Ha. rewrite nth_error_update_other by lia. now apply IH.
  - split; [rewrite length_app; lia|].
    intros a Ha. rewrite nth_error_app1 by lia. now apply IH.
Qed.

Lemma find_one_unmatched (data : store) (q : dict) :
  (dict_get "_id" q = None -> find_one data (VDict q) = Ok None) /\
  (forall doc_id,
     dict_get "_id" q = Some doc_id ->
     store_has doc_id data = Ok false ->
     find_one data (VDict q) = Ok None).
Proof.
  split.
  - intros Hq. unfold find_one. now rewrite Hq.
  - intros doc_id Hq Hhas. unfold find_one. rewrite Hq, Hhas. reflexivity.
Qed.

Lemma insert_then_find (data : store) (document : dict) (q : dict)
    (doc_id : value) :
  dict_get "_id" document = Some doc_id ->
  py_truthy doc_id = true ->
  hashable doc_id = true ->
  dict_get "_id" q = Some doc_id ->
  exists data' found,
    insert_one data document = Ok data' /\
    find_one data' (VDict q) = Ok (Some found) /\
    forall f, dict_get f found = dict_get f document.
Proof.
  intros Hid Ht Hh Hq.
  set (stored := filter (fun kv => negb (String.eqb (fst kv) "_id")) document).
  exists (store_set doc_id stored data), (materialise (doc_id, stored)).
  split; [|split].
  - unfold insert_one. rewrite Hid, Ht, Hh. reflexivity.
  - apply find_one_found; [exact Hq | exact Hh | now apply store_get_set_same].
  - intros f. unfold materialise. cbn [fst snd].
    destruct (String.eqb f "_id") eqn:E.
    + apply String.eqb_eq in E. subst f. now rewrite dict_get_set_same.
    + apply String.eqb_neq in E.
      rewrite dict_get_set_other by congruence.
      now apply dict_get_filter_other.
Qed.

(** C6: a document inserted under key K comes back from [find_one] on K
    with the fields it was inserted with, the key field among them; on the
    heap, what [find_one] returns for a stored key stands for that value
    through objects created by the call, the store's heap is a prefix of
    the heap after the call, and no sequence of writes to objects created
    since the call began changes the documents the store holds; for a
    filter without key field, or with a key the collection lacks,
    [find_one] returns [None] and raises nothing. *)
Theorem find_one_returns_independent_copy :
  (forall data document q doc_id,
     dict_get "_id" document = Some doc_id ->
     py_truthy doc_id = true ->
     hashable doc_id = true ->
     dict_get "_id" q = Some doc_id ->
     exists data' found,
       insert_one data document = Ok data' /\
       find_one data' (VDict q) = Ok (Some found) /\
       forall f, dict_get f found = dict_get f document) /\
  (forall fuel h hdata docs q doc_id doc,
     Heap.store_repr h hdata docs ->
     dict_get "_id" q = Some doc_id ->
     hashable doc_id = true ->
     store_get doc_id docs = Some doc ->
     (Heap.depth (VDict doc) <= fuel)%nat ->
     exists found new r,
       find_one docs (VDict q) = Ok (Some found) /\
       Heap.find_one fuel h hdata (VDict q) = Ok (h ++ new, Some r) /\
       Heap.repr (fun a => List.length h <= a)%nat (h ++ new) r (VDict found) /\
       forall h2,
         mutated (fun a => List.length h <= a)%nat (h ++ new) h2 ->
         Heap.store_repr h2 hdata docs) /\
  (forall data q,
     (dict_get "_id" q = None -> find_one data (VDict q) = Ok None) /\
     (forall doc_id,
        dict_get "_id" q = Some doc_id ->
        store_has doc_id data = Ok false ->
        find_one data (VDict q) = Ok None)).
Proof.
  split; [exact insert_then_find|]. split; [|exact find_one_unmatched].
  intros fuel h hdata docs q doc_id doc Hstore Hq Hh Hg Hfuel.
  destruct (heap_find_one_found fuel h hdata docs q doc_id doc
              Hstore Hq Hh Hg Hfuel) as (new & l' & Efind & Hrepr).
  exists (materialise (doc_id, doc)), new, (Heap.RObj l').
  split; [now apply find_one_found|]. split; [exact Efind|]. split.
  - revert Hrepr. apply repr_transport. intros a o [Hlo _] Ha. now split.
  - intros h2 Hm.
    destruct (mutated_below (List.length h) (h ++ new) h2 Hm) as [_ Hsame].
    { rewrite length_app. lia. }
    revert Hstore. apply store_repr_frame. intros a Ha.
    rewrite (Hsame a Ha). apply nth_error_app1. exact Ha.
Qed.

Lemma club_store_repr :
  Heap.store_repr club_heap club_store [(VStr "Chess Club", club_doc)].
Proof.
  cbn [Heap.store_repr club_store]. split; [reflexivity|]. split; [|exact I].
  apply repr_dict_unfold. eexists 1%nat, _.
  split; [reflexivity|]. split; [exact I|]. split; [reflexivity|].
  cbn [Heap.repr_fields club_doc fst snd].
  split; [reflexivity|]. split; [reflexivity|].
  split; [reflexivity|]. split; [|exact I].
  apply repr_list_unfold. eexists 0%nat, _.
  split; [reflexivity|]. split; [exact I|]. split; [reflexivity|].
  cbn [Heap.repr_items]. split; [reflexivity | exact I].
Defined.

Lemma find_one_returns_independent_copy_witness :
  (exists data' found,
     insert_one [] (("_id", VStr "Chess Club") :: club_doc) = Ok data' /\
     find_one data' (VDict [("_id", VStr "Chess Club")]) = Ok (Some found) /\
     forall f,
       dict_get f found = dict_get f (("_id", VStr "Chess Club") :: club_doc)) /\
  (exists found new r,
     find_one [(VStr "Chess Club", club_doc)]
       (VDict [("_id", VStr "Chess Club")]) = Ok (Some found) /\
     Heap.find_one 2 club_heap club_store (VDict [("_id", VStr "Chess Club")])
     = Ok (club_heap ++ new, Some r) /\
     Heap.repr (fun a => List.length club_heap <= a)%nat
       (club_heap ++ new) r (VDict found) /\
     forall h2,
       mutated (fun a => List.length club_heap <= a)%nat (club_heap ++ new) h2 ->
       Heap.store_repr h2 club_store [(VStr "Chess Club", club_doc)]) /\
  find_one [(VStr "Chess Club", club_doc)] (VDict [("_id", VStr "Art Club")])
  = Ok None.
Proof.
  destruct find_one_returns_independent_copy as (Hinsert & Hheap & Habsent).
  split; [|split].
  - apply (Hinsert [] (("_id", VStr "Chess Club") :: club_doc)
             [("_id", VStr "Chess Club")] (VStr "Chess Club")); reflexivity.
  - apply (Hheap 2%nat club_heap club_store [(VStr "Chess Club", club_doc)]
             [("_id", VStr "Chess Club")] (VStr "Chess Club") club_doc).
    + exact club_store_repr.
    + reflexivity.
    + reflexivity.
    + reflexivity.
    + cbn. lia.
  - apply (Habsent [(VStr "Chess Club", club_doc)] [("_id", VStr "Art Club")])
      with (doc_id := VStr "Art Club"); reflexivity.
Defined.

(** ** The order a set is iterated in does not show *)

Lemma ascii_compare_refl (a : ascii) : Ascii.compare a a = Eq.
Proof. unfold Ascii.compare. apply N.compare_refl. Qed.

Lemma ascii_compare_lt_trans (a b c : ascii) :
  Ascii.compare a b = Lt -> Ascii.compare b c = Lt -> Ascii.compare a c = Lt.
Proof.
  unfold Ascii.compare. rewrite !N.compare_lt_iff. apply N.lt_trans.
Qed.

Lemma name_lt_trans (x y z : string) :
  name_lt x y -> name_lt y z -> name_lt x z.
Proof.
  assert (H : forall s t, name_lt s t <-> String.compare s t = Lt).
  { intros s t. unfold name_lt, String.ltb.
    destruct (String.compare s t); split; congruence. }
  rewrite !H. clear H. revert y z.
  induction x as [|a x IH]; intros [|b y] [|c z]; cbn [String.compare];
    try congruence.
  destruct (Ascii.compare a b) eqn:Eab; try discriminate;
    destruct (Ascii.compare b c) eqn:Ebc; try discriminate.
  - apply Ascii.compare_eq_iff in Eab, Ebc. subst b c.
    rewrite ascii_compare_refl. apply IH.
  - apply Ascii.compare_eq_iff in Eab. subst b. now rewrite Ebc.
  - apply Ascii.compare_eq_iff in Ebc. subst c. now rewrite Eab.
  - now rewrite (ascii_compare_lt_trans a b c Eab Ebc).
Qed.

Lemma name_lt_irrefl (x : string) : ~ name_lt x x.
Proof.
  unfold name_lt, String.ltb. intros H.
  pose proof (String.compare_antisym x x) as Ha.
  destruct (String.compare x x); try discriminate H. discriminate Ha.
Qed.

Lemma sorted_head_least (x : string) (l : list string) :
  Sorted name_lt (x :: l) -> forall y, In y l -> name_lt x y.
Proof.
  intros Hs. apply Sorted_StronglySorted in Hs.
  - inversion Hs as [|x' l' _ Hall]; subst. now apply Forall_forall.
  - intros a b c. apply name_lt_trans.
Qed.

(** Two ascending lists with the same elements are the same list. *)
Lemma sorted_names_unique (l1 l2 : list string) :
  Sorted name_lt l1 -> Sorted name_lt l2 ->
  (forall x, In x l1 <-> In x l2) -> l1 = l2.
Proof.
  revert l2. induction l1 as [|x1 l1 IH]; intros [|x2 l2] H1 H2 Hin.
  - reflexivity.
  - exfalso. apply (Hin x2). now left.
  - exfalso. apply (Hin x1). now left.
  - assert (Hx : x1 = x2).
    { destruct (proj1 (Hin x1) (or_introl eq_refl)) as [E|E1]; [now symmetry|].
      destruct (proj2 (Hin x2) (or_introl eq_refl)) as [E|E2]; [exact E|].
      exfalso. apply (name_lt_irrefl x1).
      apply (name_lt_trans x1 x2 x1).
      - now apply (sorted_head_least x1 l1).
      - now apply (sorted_head_least x2 l2). }
    subst x2. f_equal. apply IH.
    + now inversion H1.
    + now inversion H2.
    + intros x. split; intros Hx.
      * destruct (proj1 (Hin x) (or_intror Hx)) as [E|E]; [|exact E].
        subst x. exfalso. apply (name_lt_irrefl x1).
        now apply (sorted_head_least x1 l1).
      * destruct (proj2 (Hin x) (or_intror Hx)) as [E|E]; [|exact E].
        subst x. exfalso. apply (name_lt_irrefl x1).
        now apply (sorted_head_least x1 l2).
Qed.

(** Sorting a set of names gives the same list whichever way the set is
    laid out. *)
Lemma sort_names_order_irrelevant (l l' : list string) :
  NoDup l -> Permutation l l' -> sort_names l = sort_names l'.
Proof.
  intros Hnd Hperm. apply sorted_names_unique.
  - apply sorted_strict; [apply sort_names_sorted|].
    eapply Permutation_NoDup; [apply sort_names_perm | exact Hnd].
  - apply sorted_strict; [apply sort_names_sorted|].
    eapply Permutation_NoDup; [apply sort_names_perm|].
    eapply Permutation_NoDup; [exact Hperm | exact Hnd].
  - intros x. split; intros H.
    + eapply Permutation_in; [apply sort_names_perm|].
      eapply Permutation_in; [exact Hperm|].
      eapply Permutation_in; [apply Permutation_sym, sort_names_perm | exact H].
    + eapply Permutation_in; [apply sort_names_perm|].
      eapply Permutation_in; [apply Permutation_sym, Hperm|].
      eapply Permutation_in; [apply Permutation_sym, sort_names_perm | exact H].
Qed.

(** * Further properties of the store *)

(** ** Keys *)

Lemma py_eq_sym_hashable (a b : value) :
  hashable a = true -> hashable b = true -> py_eq a b = py_eq b a.
Proof.
  destruct a, b; cbn [hashable py_eq]; try discriminate; intros _ _;
    try reflexivity.
  - now destruct b, b0.
  - apply Z.eqb_sym.
  - apply Z.eqb_sym.
  - apply Z.eqb_sym.
  - apply String.eqb_sym.
Qed.

Lemma store_set_absent (doc_id : value) (d : dict) (data : store) :
  store_get doc_id data = None -> store_set doc_id d data = data ++ [(doc_id, d)].
Proof.
  induction data as [|[k d0] data IH]; cbn [store_get store_set app];
    [reflexivity|].
  destruct (py_eq k doc_id); [discriminate|].
  intros H. now rewrite IH.
Qed.

Lemma store_get_absent_keys (doc_id : value) (data : store) :
  store_get doc_id data = None <->
  Forall (fun k => py_eq k doc_id = false) (map fst data).
Proof.
  induction data as [|[k d] data IH]; cbn [store_get map fst].
  - split; [constructor | reflexivity].
  - destruct (py_eq k doc_id) eqn:E; split.
    + discriminate.
    + intros H. inversion H; subst. congruence.
    + intros H. constructor; [exact E | now apply IH].
    + intros H. inversion H; subst. now apply IH.
Qed.

(** Where [self.data[doc_id] = d] writes when the key is there: at the
    first entry whose key equals [doc_id], keeping that entry's key. *)
Lemma store_set_found (doc_id : value) (old : dict) (data : store) :
  store_get doc_id data = Some old ->
  exists pre k post,
    data = pre ++ (k, old) :: post /\
    py_eq k doc_id = true /\
    store_get doc_id pre = None /\
    forall d, store_set doc_id d data = pre ++ (k, d) :: post.
Proof.
  induction data as [|[k d0] data IH]; cbn [store_get]; [discriminate|].
  destruct (py_eq k doc_id) eqn:E.
  - intros [= <-]. exists [], k, data. cbn [app store_set store_get]. rewrite E.
    now repeat split.
  - intros H. destruct (IH H) as (pre & k' & post & -> & Hk & Hpre & Hset).
    exists ((k, d0) :: pre), k', post. cbn [app store_set store_get]. rewrite E.
    repeat split; try assumption. intros d. now rewrite Hset.
Qed.

Lemma dict_get_without_id (document : dict) :
  dict_get "_id" (without_id document) = None.
Proof. apply dict_get_filter_id. Qed.

(** What [insert_one] does, case by case: nothing without a key or with a
    falsy one; with a new key, the document minus its key field goes last;
    with a key already there, it takes the place of the old document, under
    the key as first stored. *)
Theorem insert_one_effect (data : store) (document : dict) :
  (dict_get "_id" document = None -> insert_one data document = Ok data) /\
  (forall doc_id,
     dict_get "_id" document = Some doc_id ->
     py_truthy doc_id = false ->
     insert_one data document = Ok data) /\
  (forall doc_id,
     dict_get "_id" document = Some doc_id ->
     py_truthy doc_id = true ->
     hashable doc_id = true ->
     dict_get "_id" (without_id document) = None /\
     (store_get doc_id data = None ->
      insert_one data document = Ok (data ++ [(doc_id, without_id document)])) /\
     (forall old,
        store_get doc_id data = Some old ->
        exists pre k post,
          data = pre ++ (k, old) :: post /\
          py_eq k doc_id = true /\
          insert_one data document
          = Ok (pre ++ (k, without_id document) :: post))).
Proof.
  unfold insert_one. split; [now intros ->|]. split.
  - intros doc_id -> ->. reflexivity.
  - intros doc_id -> -> ->. fold (without_id document).
    split; [apply dict_get_without_id|]. split.
    + intros H. now rewrite (store_set_absent _ _ _ H).
    + intros old H.
      destruct (store_set_found _ _ _ H) as (pre & k & post & Hd & Hk & _ & Hset).
      exists pre, k, post. now rewrite Hset.
Qed.

Lemma insert_one_effect_witness :
  insert_one two_clubs [("name", VStr "Art Club")] = Ok two_clubs /\
  insert_one two_clubs [("_id", VStr ""); ("max_participants", VInt 15)]
  = Ok two_clubs /\
  insert_one two_clubs [("_id", VStr "Art Club"); ("max_participants", VInt 15)]
  = Ok (two_clubs ++ [(VStr "Art Club", [("max_participants", VInt 15)])]).
Proof.
  split; [|split].
  - apply (insert_one_effect two_clubs [("name", VStr "Art Club")]). reflexivity.
  - apply (insert_one_effect two_clubs
             [("_id", VStr ""); ("max_participants", VInt 15)])
      with (doc_id := VStr ""); reflexivity.
  - apply (insert_one_effect two_clubs
             [("_id", VStr "Art Club"); ("max_participants", VInt 15)])
      with (doc_id := VStr "Art Club"); reflexivity.
Defined.

Lemma keys_distinct_app_one (keys : list value) (k : value) :
  keys_distinct keys ->
  hashable k = true ->
  Forall (fun k' => py_eq k' k = false) keys ->
  keys_distinct (keys ++ [k]).
Proof.
  induction keys as [|k0 keys IH]; cbn [app keys_distinct].
  - intros _ Hk _. repeat split; [exact Hk | constructor].
  - intros (Hk0 & Hrest & Hd) Hk Hall. inversion Hall as [|? ? H0 Hall']; subst.
    split; [exact Hk0|]. split.
    + apply Forall_app. split; [exact Hrest|]. constructor; [|constructor].
      now rewrite py_eq_sym_hashable.
    + now apply IH.
Qed.

Lemma update_one_cases (data : store) (query : value) (update : dict)
    (data' : store) (n : Z) :
  update_one data query update = Ok (data', n) ->
  (n = 0 /\ data' = data) \/
  (n = 1 /\
   exists pre k doc doc' post,
     data = pre ++ (k, doc) :: post /\ data' = pre ++ (k, doc') :: post).
Proof.
  unfold update_one. destruct query as [| | | | |q]; try (intros [= <- <-]; now left).
  destruct (dict_get "_id" q) as [doc_id|]; [|intros [= <- <-]; now left].
  destruct (store_has doc_id data) as [[|]|e]; cbn [bind];
    [|intros [= <- <-]; now left|discriminate].
  unfold store_index.
  destruct (store_get doc_id data) as [doc|] eqn:Hg; cbn [bind]; [|discriminate].
  destruct (apply_operator "$push" push_field update doc) as [pushed|e];
    cbn [bind]; [|discriminate].
  destruct (apply_operator "$pull" pull_field update pushed) as [pulled|e];
    cbn [bind]; [|discriminate].
  intros [= <- <-]. right. split; [reflexivity|].
  destruct (store_set_found _ _ _ Hg) as (pre & k & post & Hd & _ & _ & Hset).
  exists pre, k, doc, pulled, post. split; [exact Hd | apply Hset].
Qed.

Lemma update_one_same_keys (data : store) (query : value) (update : dict)
    (data' : store) (n : Z) :
  update_one data query update = Ok (data', n) -> map fst data' = map fst data.
Proof.
  intros H.
  destruct (update_one_cases _ _ _ _ _ H)
    as [[_ ->]|(_ & pre & k & doc & doc' & post & -> & ->)]; [reflexivity|].
  now rewrite !map_app.
Qed.

(** [update_one] never adds, drops, renames or moves an entry: when it
    returns, the collection has the same keys in the same order, hence the
    same count; the reported count is 0 or 1, and with 0 the store is what
    it was. *)
Theorem update_one_keeps_keys_and_count (data : store) (query : value)
    (update : dict) (data' : store) (n : Z)
    (Hreturn : update_one data query update = Ok (data', n)) :
  map fst data' = map fst data /\
  count_documents data' (VDict []) = count_documents data (VDict []) /\
  (n = 0 \/ n = 1) /\
  (n = 0 -> data' = data).
Proof.
  pose proof (update_one_same_keys _ _ _ _ _ Hreturn) as Hkeys.
  split; [exact Hkeys|]. split; [|split].
  - unfold count_documents. f_equal.
    rewrite <- (length_map fst data'), Hkeys. apply length_map.
  - destruct (update_one_cases _ _ _ _ _ Hreturn) as [[-> _]|[-> _]];
      [now left | now right].
  - intros ->.
    destruct (update_one_cases _ _ _ _ _ Hreturn) as [[_ ->]|[H _]];
      [reflexivity | discriminate H].
Qed.

Lemma update_one_keeps_keys_and_count_witness :
  map fst
    [(VStr "Chess Club",
      [("max_participants", VInt 12);
       ("participants", VList [VStr "michael@mergington.edu";
                               VStr "daniel@mergington.edu"])]);
     (VStr "Programming Class",
      [("max_participants", VInt 20);
       ("participants", VList [VStr "emma@mergington.edu"])])]
  = map fst two_clubs.
Proof.
  apply (update_one_keeps_keys_and_count two_clubs
           (VDict [("_id", VStr "Chess Club")])
           [("$push", VDict [("participants", VStr "daniel@mergington.edu")])]
           _ 1).
  reflexivity.
Defined.

(** The keys of a store stay hashable and pairwise different through every
    [insert_one] and [update_one], starting from the empty store. *)
Theorem store_wf_preserved :
  store_wf [] /\
  (forall data, store_wf data ->
     (forall document data',
        insert_one data document = Ok data' -> store_wf data') /\
     (forall query update data' n,
        update_one data query update = Ok (data', n) -> store_wf data')).
Proof.
  split; [exact I|]. intros data Hwf. split.
  - intros document data'. unfold insert_one.
    destruct (dict_get "_id" document) as [doc_id|]; [|now intros [= <-]].
    destruct (py_truthy doc_id); [|now intros [= <-]].
    destruct (hashable doc_id) eqn:Hh; [|discriminate].
    intros [= <-]. unfold store_wf in *.
    destruct (store_get doc_id data) as [old|] eqn:Hg.
    + destruct (store_set_found _ _ _ Hg) as (pre & k & post & Hd & _ & _ & Hset).
      rewrite Hset. rewrite Hd in Hwf. now rewrite map_app in *.
    + rewrite (store_set_absent _ _ _ Hg), map_app. cbn [map fst].
      apply keys_distinct_app_one; [exact Hwf | exact Hh |].
      now apply store_get_absent_keys.
  - intros query update data' n H. unfold store_wf.
    now rewrite (update_one_same_keys _ _ _ _ _ H).
Qed.

Lemma store_wf_preserved_witness :
  store_wf (two_clubs ++ [(VStr "Art Club", [("max_participants", VInt 15)])]).
Proof.
  destruct store_wf_preserved as [_ H].
  destruct (H two_clubs) as [Hinsert _].
  - cbn. repeat split; repeat constructor.
  - apply (Hinsert [("_id", VStr "Art Club"); ("max_participants", VInt 15)]).
    reflexivity.
Defined.

(** ** Updates in sequence *)

Lemma dict_set_twice (k : string) (v1 v2 : value) (d : dict) :
  dict_set k v2 (dict_set k v1 d) = dict_set k v2 d.
Proof.
  induction d as [|[k0 v0] d IH]; cbn [dict_set].
  - now rewrite String.eqb_refl.
  - destruct (String.eqb k k0) eqn:E; cbn [dict_set]; rewrite E;
      [reflexivity | now rewrite IH].
Qed.

Lemma store_set_twice (doc_id : value) (d1 d2 : dict) (data : store) :
  hashable doc_id = true ->
  store_set doc_id d2 (store_set doc_id d1 data) = store_set doc_id d2 data.
Proof.
  intros Hh. induction data as [|[k d0] data IH]; cbn [store_set].
  - now rewrite py_eq_refl_hashable.
  - destruct (py_eq k doc_id) eqn:E; cbn [store_set]; rewrite E;
      [reflexivity | now rewrite IH].
Qed.

Lemma list_remove_app_last (v : value) (xs : list value) :
  existsb (fun x => py_eq x v) xs = false ->
  py_eq v v = true ->
  list_remove v (xs ++ [v]) = xs.
Proof.
  intros Habs Hrefl. induction xs as [|x xs IH]; cbn [app list_remove].
  - now rewrite Hrefl.
  - cbn [existsb] in Habs. apply orb_false_iff in Habs. destruct Habs as [Hx Hxs].
    rewrite Hx. now rewrite IH.
Qed.

(** Signing up and then unregistering is a round trip: a [$push] of a value
    the list does not hold, followed by a [$pull] of it, gives back the
    store as it was. *)
Theorem push_then_pull_restores (data : store) (q : dict) (doc_id : value)
    (doc : dict) (field : string) (v : value) (xs : list value)
    (Hq : dict_get "_id" q = Some doc_id)
    (Hh : hashable doc_id = true)
    (Hg : store_get doc_id data = Some doc)
    (Hf : dict_get field doc = Some (VList xs))
    (Hnew : existsb (fun x => py_eq x v) xs = false)
    (Hrefl : py_eq v v = true) :
  exists pushed,
    update_one data (VDict q) [("$push", VDict [(field, v)])] = Ok (pushed, 1) /\
    update_one pushed (VDict q) [("$pull", VDict [(field, v)])] = Ok (data, 1).
Proof.
  set (doc1 := dict_set field (VList (xs ++ [v])) doc).
  exists (store_set doc_id doc1 data). split.
  - rewrite (update_one_found data q doc_id doc _ Hq Hh Hg).
    cbn [apply_operator dict_get String.eqb Ascii.eqb Bool.eqb py_items bind
         for_fields].
    unfold push_field. rewrite Hf. reflexivity.
  - rewrite (update_one_pull (store_set doc_id doc1 data) q doc_id doc1
               [("$pull", VDict [(field, v)])] field v (xs ++ [v]) Hq Hh).
    + rewrite (list_remove_app_last v xs Hnew Hrefl). unfold doc1.
      rewrite dict_set_twice, (dict_set_same_value _ _ _ Hf).
      rewrite (store_set_twice _ _ _ _ Hh).
      now rewrite (store_set_same_value _ _ _ Hg).
    + now apply store_get_set_same.
    + reflexivity.
    + reflexivity.
    + apply dict_get_set_same.
Qed.

Lemma push_then_pull_restores_witness :
  exists pushed,
    update_one two_clubs (VDict [("_id", VStr "Chess Club")])
      [("$push", VDict [("participants", VStr "daniel@mergington.edu")])]
    = Ok (pushed, 1) /\
    update_one pushed (VDict [("_id", VStr "Chess Club")])
      [("$pull", VDict [("participants", VStr "daniel@mergington.edu")])]
    = Ok (two_clubs, 1).
Proof.
  apply (push_then_pull_restores two_clubs [("_id", VStr "Chess Club")]
           (VStr "Chess Club")
           [("max_participants", VInt 12);
            ("participants", VList [VStr "michael@mergington.edu"])]
           "participants" (VStr "daniel@mergington.edu")
           [VStr "michael@mergington.edu"]); reflexivity.
Defined.

Lemma only_operator_same (name : string) (update : dict) :
  dict_get name (only_operator name update) = dict_get name update.
Proof.
  unfold only_operator. destruct (dict_get name update) eqn:E; [|reflexivity].
  cbn [dict_get]. now rewrite String.eqb_refl.
Qed.

Lemma only_operator_other (name other : string) (update : dict) :
  other <> name -> dict_get other (only_operator name update) = None.
Proof.
  intros Hne. unfold only_operator.
  destruct (dict_get name update); [|reflexivity].
  cbn [dict_get]. destruct (String.eqb other name) eqn:E; [|reflexivity].
  apply String.eqb_eq in E. contradiction.
Qed.

Lemma apply_operator_only_same (name : string)
    (step : dict -> string -> value -> result dict) (update doc : dict) :
  apply_operator name step (only_operator name update) doc
  = apply_operator name step update doc.
Proof. unfold apply_operator. now rewrite only_operator_same. Qed.

Lemma apply_operator_only_other (name other : string)
    (step : dict -> string -> value -> result dict) (update doc : dict) :
  other <> name ->
  apply_operator other step (only_operator name update) doc = Ok doc.
Proof.
  intros Hne. unfold apply_operator. now rewrite only_operator_other.
Qed.

(** One call with both operator groups is the call with the [$push] group
    alone followed, on the store it leaves, by the call with the [$pull]
    group alone: same store, same count, same exception. *)
Theorem update_one_push_before_pull (data : store) (query : value)
    (update : dict) :
  update_one data query update =
  (pushed <- update_one data query (only_operator "$push" update) ;;
   update_one (fst pushed) query (only_operator "$pull" update)).
Proof.
  unfold update_one. destruct query as [| | | | |q]; try reflexivity.
  destruct (dict_get "_id" q) as [doc_id|]; [|reflexivity].
  destruct (store_has doc_id data) as [[|]|e] eqn:Hhas; cbn [bind fst];
    [|now rewrite Hhas|reflexivity].
  apply store_has_true in Hhas. destruct Hhas as [Hh [doc Hg]].
  unfold store_index. rewrite Hg. cbn [bind].
  rewrite apply_operator_only_same.
  destruct (apply_operator "$push" push_field update doc) as [pushed|e];
    cbn [bind]; [|reflexivity].
  rewrite (apply_operator_only_other "$push" "$pull") by discriminate.
  cbn [bind fst]. unfold store_has. rewrite Hh.
  rewrite (store_get_set_same _ _ _ Hh). cbn [bind].
  rewrite (apply_operator_only_other "$pull" "$push") by discriminate.
  cbn [bind]. rewrite apply_operator_only_same.
  destruct (apply_operator "$pull" pull_field update pushed) as [pulled|e];
    cbn [bind]; [|reflexivity].
  now rewrite (store_set_twice _ _ _ _ Hh).
Qed.

(** ** [find] *)

Lemma accepts_spec (q : dict) (entry : value * dict) (b : bool) :
  _match_query (materialise entry) q = Ok b -> accepts q entry = b.
Proof. unfold accepts. intros ->. now destruct b. Qed.

Lemma find_returns_accepted (data : store) (q : dict) (docs : list dict) :
  find data (Some q) = Ok docs ->
  docs = map materialise (filter (accepts q) data).
Proof.
  revert docs. induction data as [|[doc_id doc] data IH]; intros docs.
  - now intros [= <-].
  - rewrite find_cons.
    destruct (_match_query (materialise (doc_id, doc)) q) as [b|e] eqn:E;
      cbn [bind]; [|discriminate].
    destruct (find data (Some q)) as [tail|e]; cbn [bind]; [|discriminate].
    intros [= <-]. cbn [filter]. rewrite (accepts_spec _ _ _ E).
    rewrite (IH tail eq_refl). now destruct b.
Qed.

(** [find] with a filter is the matcher run over the documents in store
    order: it returns those the matcher accepts, each with its key under
    ["_id"], and raises what the matcher raises on the first document it
    cannot judge. *)
Theorem find_is_filter (data : store) (q : dict) :
  (forall docs,
     find data (Some q) = Ok docs ->
     docs = map materialise (filter (accepts q) data)) /\
  (Forall (fun entry => ~ raises (_match_query (materialise entry) q)) data ->
   find data (Some q) = Ok (map materialise (filter (accepts q) data))) /\
  (forall e,
     find data (Some q) = Raise e ->
     exists before entry after,
       data = before ++ entry :: after /\
       _match_query (materialise entry) q = Raise e /\
       Forall (fun x => ~ raises (_match_query (materialise x) q)) before).
Proof.
  induction data as [|[doc_id doc] data (IHok & IHall & IHraise)].
  - split; [now intros docs [= <-]|]. split; [reflexivity | discriminate].
  - rewrite find_cons. split; [|split].
    + intros docs H.
      destruct (_match_query (materialise (doc_id, doc)) q) as [b|e] eqn:E;
        cbn [bind] in H; [|discriminate].
      destruct (find data (Some q)) as [tail|e]; cbn [bind] in H; [|discriminate].
      injection H as <-. cbn [filter]. rewrite (accepts_spec _ _ _ E).
      rewrite (IHok tail eq_refl). now destruct b.
    + intros Hall. inversion Hall as [|x l Hx Hrest]; subst.
      destruct (_match_query (materialise (doc_id, doc)) q) as [b|e] eqn:E;
        cbn [bind]; [|exfalso; apply Hx; now exists e].
      rewrite (IHall Hrest). cbn [bind filter]. rewrite (accepts_spec _ _ _ E).
      now destruct b.
    + intros e H.
      destruct (_match_query (materialise (doc_id, doc)) q) as [b|e0] eqn:E;
        cbn [bind] in H.
      * destruct (find data (Some q)) as [tail|e1] eqn:Ef; cbn [bind] in H;
          [discriminate|]. injection H as ->.
        destruct (IHraise e eq_refl) as (before & entry & after & -> & He & Hb).
        exists ((doc_id, doc) :: before), entry, after.
        split; [reflexivity|]. split; [exact He|].
        constructor; [|exact Hb]. intros [e' He']. congruence.
      * injection H as ->. exists [], (doc_id, doc), data.
        split; [reflexivity|]. split; [exact E | constructor].
Qed.

Lemma find_is_filter_witness :
  find two_clubs (Some at_least_twenty)
  = Ok (map materialise (filter (accepts at_least_twenty) two_clubs)).
Proof.
  apply (find_is_filter two_clubs at_least_twenty).
  constructor; [intros [e He]; discriminate He|].
  constructor; [intros [e He]; discriminate He | constructor].
Defined.

Lemma py_eq_str (k : value) (s : string) :
  py_eq k (VStr s) = true -> k = VStr s.
Proof.
  destruct k; cbn [py_eq]; try discriminate.
  intros H. apply String.eqb_eq in H. now subst.
Qed.

Lemma resolve_path_id (doc_id : value) (doc : dict) :
  resolve_path (materialise (doc_id, doc)) "_id" = Some doc_id.
Proof.
  unfold resolve_path, materialise. cbn [fst snd].
  rewrite (str_split_no_separator "_id" eq_refl), traverse_single.
  apply dict_get_set_same.
Qed.

Lemma match_key_filter (doc_id : value) (doc : dict) (s : string) :
  _match_query (materialise (doc_id, doc)) [("_id", VStr s)]
  = Ok (py_eq doc_id (VStr s)).
Proof.
  cbn [_match_query]. rewrite match_clause_resolve, resolve_path_id.
  cbn [match_value bind]. now destruct (py_eq doc_id (VStr s)).
Qed.

Lemma find_key_filter (data : store) (s : string) :
  store_wf data ->
  find data (Some [("_id", VStr s)])
  = Ok match store_get (VStr s) data with
       | Some doc => [materialise (VStr s, doc)]
       | None => []
       end.
Proof.
  unfold store_wf. induction data as [|[k doc] data IH]; [reflexivity|].
  cbn [map fst keys_distinct]. intros (Hk & Hrest & Hwf).
  rewrite find_cons, match_key_filter. cbn [bind store_get].
  rewrite (IH Hwf). cbn [bind].
  destruct (py_eq k (VStr s)) eqn:E; [|reflexivity].
  apply py_eq_str in E. subst k.
  apply store_get_absent_keys in Hrest. now rewrite Hrest.
Qed.

(** In a store with distinct keys, [find] with the filter [{"_id": name}]
    returns the one document [find_one] returns for it, or nothing when
    [find_one] returns [None]. *)
Theorem find_by_key_agrees_with_find_one (data : store) (s : string)
    (Hwf : store_wf data) :
  exists found,
    find_one data (VDict [("_id", VStr s)]) = Ok found /\
    find data (Some [("_id", VStr s)])
    = Ok match found with Some doc => [doc] | None => [] end.
Proof.
  rewrite (find_key_filter data s Hwf).
  unfold find_one, store_has, store_index.
  cbn [dict_get String.eqb Ascii.eqb Bool.eqb hashable bind].
  destruct (store_get (VStr s) data) as [doc|]; cbn [bind];
    eexists; split; reflexivity.
Qed.

Lemma find_by_key_agrees_with_find_one_witness :
  exists found,
    find_one two_clubs (VDict [("_id", VStr "Programming Class")]) = Ok found /\
    find two_clubs (Some [("_id", VStr "Programming Class")])
    = Ok match found with Some doc => [doc] | None => [] end.
Proof.
  apply (find_by_key_agrees_with_find_one two_clubs "Programming Class").
  cbn. repeat split; repeat constructor.
Defined.

(** ** More on the query matcher *)

(** A clause whose value is not a mapping is an equality test: it never
    raises, and it holds exactly when the path resolves to a value equal
    under [==] to the clause's. *)
Theorem literal_clause_is_equality (doc : dict) (key : string) (v : value)
    (Hliteral : forall ops, v <> VDict ops) :
  match_clause doc key v =
  Ok match resolve_path doc key with
     | Some current_val => py_eq current_val v
     | None => false
     end /\
  (_match_query doc [(key, v)] = Ok true <->
   exists current_val,
     resolve_path doc key = Some current_val /\ py_eq current_val v = true).
Proof.
  assert (H : match_clause doc key v =
              Ok match resolve_path doc key with
                 | Some current_val => py_eq current_val v
                 | None => false
                 end).
  { rewrite match_clause_resolve.
    destruct (resolve_path doc key) as [cur|]; [|reflexivity].
    destruct v; try reflexivity. now destruct (Hliteral kvs). }
  split; [exact H|]. cbn [_match_query]. rewrite H. cbn [bind].
  destruct (resolve_path doc key) as [cur|].
  - destruct (py_eq cur v) eqn:E; split.
    + intros _. now exists cur.
    + reflexivity.
    + discriminate.
    + intros (c & [= <-] & Hc). congruence.
  - split; [discriminate | now intros (c & [=] & _)].
Qed.

Lemma literal_clause_is_equality_witness :
  _match_query chess_club [("schedule_details.start_time", VStr "15:15")]
  = Ok true.
Proof.
  apply (literal_clause_is_equality chess_club "schedule_details.start_time"
           (VStr "15:15")).
  - discriminate.
  - exists (VStr "15:15"). split; reflexivity.
Defined.

(** A mapping is read for one operator only, [$in] before [$gte] before
    [$lte], wherever they stand in it.  A range written as
    [{"$gte": lo, "$lte": hi}] is therefore a lower bound alone: an integer
    field passes exactly when it is at least [lo], however it compares with
    [hi]. *)
Theorem range_clause_checks_lower_bound_only (doc : dict) (key : string)
    (m lo hi : Z)
    (Hfield : resolve_path doc key = Some (VInt m)) :
  (match_clause doc key (VDict [("$gte", VInt lo); ("$lte", VInt hi)]) = Ok true
   <-> lo <= m) /\
  (match_clause doc key (VDict [("$lte", VInt hi); ("$gte", VInt lo)]) = Ok true
   <-> lo <= m).
Proof.
  rewrite !match_clause_resolve, Hfield.
  rewrite (match_value_gte (VInt m) [("$gte", VInt lo); ("$lte", VInt hi)]
             (VInt lo) eq_refl eq_refl).
  rewrite (match_value_gte (VInt m) [("$lte", VInt hi); ("$gte", VInt lo)]
             (VInt lo) eq_refl eq_refl).
  cbn [py_compare]. rewrite op_holds_ge_Z, <- Z.leb_le.
  split; (split; [now intros [= ->] | now intros ->]).
Qed.

Lemma range_clause_checks_lower_bound_only_witness :
  match_clause chess_club "max_participants"
    (VDict [("$gte", VInt 5); ("$lte", VInt 10)]) = Ok true.
Proof.
  apply (range_clause_checks_lower_bound_only chess_club "max_participants"
           12 5 10 eq_refl).
  lia.
Defined.

Lemma match_query_forallb (doc : dict) (q : dict) :
  Forall (fun kv => ~ raises (match_clause doc (fst kv) (snd kv))) q ->
  _match_query doc q =
  Ok (forallb (fun kv => match match_clause doc (fst kv) (snd kv) with
                         | Ok true => true
                         | _ => false
                         end) q).
Proof.
  induction 1 as [|[key v] q Hc _ IH]; [reflexivity|].
  cbn [_match_query forallb fst snd] in *.
  destruct (match_clause doc key v) as [[|]|e]; cbn [bind andb].
  - exact IH.
  - reflexivity.
  - exfalso. apply Hc. now exists e.
Qed.

(** When no clause raises, the order in which the filter lists its clauses
    does not matter. *)
Theorem clause_order_is_irrelevant (doc : dict) (q q' : dict)
    (Hperm : Permutation q q')
    (Hquiet : Forall (fun kv => ~ raises (match_clause doc (fst kv) (snd kv))) q) :
  _match_query doc q = _match_query doc q'.
Proof.
  rewrite (match_query_forallb doc q Hquiet).
  rewrite (match_query_forallb doc q').
  - f_equal. clear Hquiet.
    induction Hperm as [|x l l' _ IH|x y l|l l' l'' _ IH1 _ IH2];
      cbn [forallb].
    + reflexivity.
    + now rewrite IH.
    + rewrite !andb_assoc. f_equal. apply andb_comm.
    + now rewrite IH1.
  - rewrite Forall_forall in *. intros kv Hin. apply Hquiet.
    eapply Permutation_in; [apply Permutation_sym, Hperm | exact Hin].
Qed.

Lemma clause_order_is_irrelevant_witness :
  _match_query chess_club
    [("max_participants", VDict [("$gte", VInt 20)]);
     ("schedule_details.start_time", VStr "15:15")]
  = _match_query chess_club
      [("schedule_details.start_time", VStr "15:15");
       ("max_participants", VDict [("$gte", VInt 20)])].
Proof.
  apply (clause_order_is_irrelevant chess_club).
  - apply perm_swap.
  - constructor; [intros [e He]; discriminate He|].
    constructor; [intros [e He]; discriminate He | constructor].
Defined.

Lemma any_in_strings (cands : list value) (names : list string) (s : string) :
  strings_of cands = Some names ->
  any_in cands (VStr s) = Ok (existsb (fun c => str_contains c s) names).
Proof.
  revert names. induction cands as [|c cands IH]; intros names;
    cbn [strings_of].
  - now intros [= <-].
  - destruct c; try discriminate.
    destruct (strings_of cands) as [ns|]; [|discriminate].
    intros [= <-]. cbn [any_in py_in bind existsb].
    destruct (str_contains s0 s); [reflexivity | now apply IH].
Qed.

(** [$in] outside lists of candidates against list fields: an empty
    candidate list rejects every document that has the field; against a
    string field a candidate matches when it occurs in the string; against
    a number, a boolean or [None] any candidate at all raises [TypeError];
    and candidates that cannot be iterated raise it whatever the field. *)
Theorem in_clause_edge_cases (doc : dict) (key : string) (current_val : value)
    (Hfield : resolve_path doc key = Some current_val) :
  match_clause doc key (VDict [("$in", VList [])]) = Ok false /\
  (forall s cands names,
     current_val = VStr s ->
     strings_of cands = Some names ->
     match_clause doc key (VDict [("$in", VList cands)])
     = Ok (existsb (fun c => str_contains c s) names)) /\
  (forall c cands,
     hashable current_val = true ->
     (forall s, current_val <> VStr s) ->
     match_clause doc key (VDict [("$in", VList (c :: cands))])
     = Raise TypeError) /\
  (forall candidates,
     hashable candidates = true ->
     (forall s, candidates <> VStr s) ->
     match_clause doc key (VDict [("$in", candidates)]) = Raise TypeError).
Proof.
  assert (Hclause : forall v, match_clause doc key v = match_value current_val v).
  { intros v. now rewrite match_clause_resolve, Hfield. }
  split; [now rewrite Hclause|]. split; [|split].
  - intros s cands names -> Hnames. rewrite Hclause.
    rewrite (match_value_in _ [("$in", VList cands)] (VList cands) eq_refl).
    cbn [py_iter bind]. now apply any_in_strings.
  - intros c cands Hh Hns. rewrite Hclause.
    rewrite (match_value_in _ [("$in", VList (c :: cands))] (VList (c :: cands))
               eq_refl).
    cbn [py_iter bind any_in].
    destruct current_val; cbn [hashable] in Hh; try discriminate; try reflexivity.
    now destruct (Hns s).
  - intros candidates Hh Hns. rewrite Hclause.
    rewrite (match_value_in _ [("$in", candidates)] candidates eq_refl).
    destruct candidates; cbn [hashable] in Hh; try discriminate; try reflexivity.
    now destruct (Hns s).
Qed.

Lemma in_clause_edge_cases_witness :
  match_clause chess_club "max_participants" (VDict [("$in", VList [VInt 12])])
  = Raise TypeError /\
  match_clause chess_club "schedule_details.start_time"
    (VDict [("$in", VList [VStr "15:"])]) = Ok true.
Proof.
  split.
  - destruct (in_clause_edge_cases chess_club "max_participants" (VInt 12)
                eq_refl) as (_ & _ & Hscalar & _).
    apply (Hscalar (VInt 12) []); [reflexivity | discriminate].
  - destruct (in_clause_edge_cases chess_club "schedule_details.start_time"
                (VStr "15:15") eq_refl) as (_ & Hstr & _).
    apply (Hstr "15:15" [VStr "15:"] ["15:"]); reflexivity.
Defined.

(** ** Exceptions of the store methods *)

(** A key that cannot be hashed, a list or a mapping, makes [find_one] and
    [update_one] raise [TypeError] whatever the store holds, and makes
    [insert_one] raise it when the key is non-empty; an empty one is falsy
    and the insert is skipped. *)
Theorem unhashable_key_raises (data : store) (doc_id : value)
    (Hunhashable : hashable doc_id = false) :
  (forall q,
     dict_get "_id" q = Some doc_id ->
     find_one data (VDict q) = Raise TypeError /\
     forall update, update_one data (VDict q) update = Raise TypeError) /\
  (forall document,
     dict_get "_id" document = Some doc_id ->
     insert_one data document
     = if py_truthy doc_id then Raise TypeError else Ok data).
Proof.
  split.
  - intros q Hq. unfold find_one, update_one, store_has.
    rewrite Hq, Hunhashable. now split.
  - intros document Hid. unfold insert_one. rewrite Hid, Hunhashable.
    now destruct (py_truthy doc_id).
Qed.

Lemma unhashable_key_raises_witness :
  find_one two_clubs (VDict [("_id", VList [VStr "Chess Club"])])
  = Raise TypeError.
Proof.
  destruct (unhashable_key_raises two_clubs (VList [VStr "Chess Club"])
              eq_refl) as [Hfind _].
  apply (Hfind [("_id", VList [VStr "Chess Club"])] eq_refl).
Defined.

(** Where [update_one] raises on a document it has found: a [$push] on a
    field that holds something other than a list, and an operator whose
    argument is not a mapping, raise [AttributeError]; a [$pull] on a field
    holding a number, a boolean or [None] raises [TypeError].  A [$pull]
    that names a field the document lacks does nothing. *)
Theorem update_one_operator_errors (data : store) (q : dict) (doc_id : value)
    (doc : dict)
    (Hq : dict_get "_id" q = Some doc_id)
    (Hh : hashable doc_id = true)
    (Hg : store_get doc_id data = Some doc) :
  (forall field v x,
     dict_get field doc = Some x ->
     (forall xs, x <> VList xs) ->
     update_one data (VDict q) [("$push", VDict [(field, v)])]
     = Raise AttributeError) /\
  (forall name spec,
     name = "$push" \/ name = "$pull" ->
     (forall kvs, spec <> VDict kvs) ->
     update_one data (VDict q) [(name, spec)] = Raise AttributeError) /\
  (forall field v x,
     dict_get field doc = Some x ->
     hashable x = true ->
     (forall s, x <> VStr s) ->
     update_one data (VDict q) [("$pull", VDict [(field, v)])]
     = Raise TypeError) /\
  (forall field v,
     dict_get field doc = None ->
     update_one data (VDict q) [("$pull", VDict [(field, v)])] = Ok (data, 1)).
Proof.
  split; [|split; [|split]].
  - intros field v x Hf Hx.
    rewrite (update_one_found data q doc_id doc _ Hq Hh Hg).
    rewrite (apply_operator_single "$push" push_field
               [("$push", VDict [(field, v)])] doc field v eq_refl).
    unfold push_field. rewrite Hf.
    destruct x; try reflexivity. now destruct (Hx xs).
  - intros name spec Hname Hspec.
    rewrite (update_one_found data q doc_id doc _ Hq Hh Hg).
    destruct Hname as [-> | ->].
    + unfold apply_operator at 1.
      cbn [dict_get String.eqb Ascii.eqb Bool.eqb].
      destruct spec; try reflexivity. now destruct (Hspec kvs).
    + rewrite (apply_operator_absent "$push" push_field
                 [("$pull", spec)] doc eq_refl).
      cbn [bind]. unfold apply_operator.
      cbn [dict_get String.eqb Ascii.eqb Bool.eqb].
      destruct spec; try reflexivity. now destruct (Hspec kvs).
  - intros field v x Hf Hx Hns.
    rewrite (update_one_found data q doc_id doc _ Hq Hh Hg).
    rewrite (apply_operator_absent "$push" push_field
               [("$pull", VDict [(field, v)])] doc eq_refl).
    cbn [bind].
    rewrite (apply_operator_single "$pull" pull_field
               [("$pull", VDict [(field, v)])] doc field v eq_refl).
    unfold pull_field. rewrite Hf.
    destruct x; cbn [hashable] in Hx; try discriminate; try reflexivity.
    now destruct (Hns s).
  - intros field v Hf.
    rewrite (update_one_found data q doc_id doc _ Hq Hh Hg).
    rewrite (apply_operator_absent "$push" push_field
               [("$pull", VDict [(field, v)])] doc eq_refl).
    cbn [bind].
    rewrite (apply_operator_single "$pull" pull_field
               [("$pull", VDict [(field, v)])] doc field v eq_refl).
    unfold pull_field. rewrite Hf. cbn [bind].
    now rewrite (store_set_same_value _ _ _ Hg).
Qed.

Lemma update_one_operator_errors_witness :
  update_one two_clubs (VDict [("_id", VStr "Chess Club")])
    [("$push", VDict [("max_participants", VInt 1)])]
  = Raise AttributeError.
Proof.
  destruct (update_one_operator_errors two_clubs [("_id", VStr "Chess Club")]
              (VStr "Chess Club")
              [("max_participants", VInt 12);
               ("participants", VList [VStr "michael@mergington.edu"])]
              eq_refl eq_refl eq_refl) as (Hpush & _).
  apply (Hpush "max_participants" (VInt 1) (VInt 12)); [reflexivity|].
  discriminate.
Defined.

(** ** The aggregation and the layout of the store *)

Lemma unique_days_same_names (names names' : list string) :
  (forall d, In d names <-> In d names') ->
  unique_days names = unique_days names'.
Proof.
  intros Hsame.
  destruct (unique_days_spec names) as (Hs & _ & Hin).
  destruct (unique_days_spec names') as (Hs' & _ & Hin').
  apply sorted_names_unique; [exact Hs | exact Hs' |].
  intros d. now rewrite Hin, Hin', Hsame.
Qed.

Lemma scheduled_days_defined (data : store) :
  Forall (fun entry => exists ds, day_names (snd entry) = Some ds) data ->
  exists names, scheduled_days data = Some names.
Proof.
  induction 1 as [|[doc_id doc] data [ds Hds] _ [names IH]].
  - now exists [].
  - cbn [scheduled_days]. cbn [snd] in Hds. rewrite Hds, IH. now eexists.
Qed.

Lemma scheduled_days_each (data : store) (names : list string) :
  scheduled_days data = Some names ->
  Forall (fun entry => exists ds, day_names (snd entry) = Some ds) data.
Proof.
  revert names. induction data as [|[doc_id doc] data IH]; intros names;
    [constructor|].
  cbn [scheduled_days].
  destruct (day_names doc) as [here|] eqn:Hhere; [|discriminate].
  destruct (scheduled_days data) as [later|]; [|discriminate].
  intros _. constructor; [now exists here | now apply (IH later)].
Qed.

(** The aggregation sees the collection as a set of day names: two
    collections of well-formed documents in which the same names occur get
    the same answer, so neither the order of the documents, nor how often a
    day is listed, nor the [pipeline] argument has any influence. *)
Theorem aggregate_depends_on_day_set_only (data data' : store)
    (pipeline pipeline' : value) (names : list string)
    (Hnames : scheduled_days data = Some names) :
  (forall names',
     scheduled_days data' = Some names' ->
     (forall d, In d names <-> In d names') ->
     aggregate data pipeline = aggregate data' pipeline') /\
  (Permutation data data' ->
   aggregate data pipeline = aggregate data' pipeline').
Proof.
  assert (Hset : forall names',
             scheduled_days data' = Some names' ->
             (forall d, In d names <-> In d names') ->
             aggregate data pipeline = aggregate data' pipeline').
  { intros names' Hnames' Hsame.
    rewrite (aggregate_refines data pipeline names Hnames).
    rewrite (aggregate_refines data' pipeline' names' Hnames').
    now rewrite (unique_days_same_names names names' Hsame). }
  split; [exact Hset|]. intros Hperm.
  destruct (scheduled_days_defined data') as [names' Hnames'].
  { eapply Permutation_Forall; [exact Hperm|].
    now apply (scheduled_days_each data names). }
  apply (Hset names' Hnames'). intros d.
  rewrite (scheduled_days_In data names d Hnames).
  rewrite (scheduled_days_In data' names' d Hnames').
  split; intros (entry & ds & Hin & Hds & Hd); exists entry, ds;
    (split; [|now split]).
  - eapply Permutation_in; [exact Hperm | exact Hin].
  - eapply Permutation_in; [apply Permutation_sym, Hperm | exact Hin].
Qed.

Lemma aggregate_depends_on_day_set_only_witness :
  aggregate week_data (VList [])
  = aggregate [(VStr "Debate Team",
                [("schedule_details", VDict [("days", VList [VStr "Friday"])])]);
               (VStr "Chess Club",
                [("schedule_details",
                  VDict [("days", VList [VStr "Monday"; VStr "Friday"])])])]
      VNone.
Proof.
  apply (aggregate_depends_on_day_set_only week_data _ (VList []) VNone
           ["Monday"; "Friday"; "Friday"] eq_refl).
  apply perm_swap.
Defined.

(** ** [init_database] *)

Lemma dict_get_none_keys (k : string) (d : dict) :
  dict_get k d = None <-> ~ In k (map fst d).
Proof.
  induction d as [|[k0 v0] d IH]; cbn [dict_get map fst In]; [tauto|].
  destruct (String.eqb k k0) eqn:E.
  - apply String.eqb_eq in E. subst k0. split; [discriminate | tauto].
  - apply String.eqb_neq in E. rewrite IH. split.
    + intros H [H0|H0]; [congruence | tauto].
    + tauto.
Qed.

Lemma dict_set_new (k : string) (v : value) (d : dict) :
  dict_get k d = None -> dict_set k v d = d ++ [(k, v)].
Proof.
  induction d as [|[k0 v0] d IH]; cbn [dict_get dict_set app]; [reflexivity|].
  destruct (String.eqb k k0); [discriminate|].
  intros H. now rewrite IH.
Qed.

Lemma fold_dict_set_fresh (kvs acc : dict) :
  NoDup (map fst kvs) ->
  (forall k, In k (map fst kvs) -> ~ In k (map fst acc)) ->
  fold_left (fun a kv => dict_set (fst kv) (snd kv) a) kvs acc = acc ++ kvs.
Proof.
  revert acc. induction kvs as [|[k v] kvs IH]; intros acc Hnd Hfresh.
  - now rewrite app_nil_r.
  - cbn [fold_left fst snd]. cbn [map fst] in Hnd, Hfresh.
    inversion Hnd as [|? ? Hk Hnd']; subst.
    rewrite dict_set_new by (apply dict_get_none_keys, Hfresh; now left).
    rewrite IH; [now rewrite <- app_assoc | exact Hnd' |].
    intros k' Hk' Hin. rewrite map_app, in_app_iff in Hin.
    destruct Hin as [Hin|[<-|[]]]; [|contradiction].
    apply (Hfresh k'); [now right | exact Hin].
Qed.

Lemma with_id_plain (key : value) (d : dict) :
  plain_record d -> with_id key (VDict d) = Ok (("_id", key) :: d).
Proof.
  intros [Hnd Hid]. unfold with_id. f_equal.
  rewrite fold_dict_set_fresh; [reflexivity | exact Hnd |].
  intros k Hk [<-|[]]. contradiction.
Qed.

Lemma without_id_plain (key : value) (d : dict) :
  plain_record d -> without_id (("_id", key) :: d) = d.
Proof.
  intros [_ Hid]. unfold without_id. cbn [filter fst].
  rewrite String.eqb_refl. cbn [negb].
  induction d as [|[k v] d IH]; [reflexivity|].
  cbn [filter fst map In] in *.
  destruct (String.eqb k "_id") eqn:E.
  - apply String.eqb_eq in E. subst k. tauto.
  - cbn [negb]. rewrite IH; [reflexivity | tauto].
Qed.

Lemma insert_plain_record (data : store) (name : string) (d : dict) :
  name <> "" -> plain_record d ->
  insert_one data (("_id", VStr name) :: d) = Ok (store_set (VStr name) d data).
Proof.
  intros Hname Hplain. unfold insert_one.
  cbn [dict_get String.eqb Ascii.eqb Bool.eqb py_truthy hashable].
  apply String.eqb_neq in Hname. rewrite Hname. cbn [negb].
  fold (without_id (("_id", VStr name) :: d)).
  now rewrite without_id_plain.
Qed.

Lemma store_get_store_of_absent (name : string)
    (records : list (string * dict)) :
  ~ In name (map fst records) -> store_get (VStr name) (store_of records) = None.
Proof.
  induction records as [|[n d] records IH]; [reflexivity|].
  cbn [map fst In store_of store_get py_eq]. intros H.
  destruct (String.eqb n name) eqn:E.
  - apply String.eqb_eq in E. tauto.
  - apply IH. tauto.
Qed.

Lemma store_get_store_of (name : string) (d : dict)
    (records : list (string * dict)) :
  NoDup (map fst records) -> In (name, d) records ->
  store_get (VStr name) (store_of records) = Some d.
Proof.
  induction records as [|[n d0] records IH]; intros Hnd Hin; [destruct Hin|].
  cbn [map fst] in Hnd. inversion Hnd as [|? ? Hn Hnd']; subst.
  cbn [store_of map store_get py_eq fst snd].
  destruct Hin as [[= -> ->]|Hin].
  - now rewrite String.eqb_refl.
  - destruct (String.eqb n name) eqn:E.
    + apply String.eqb_eq in E. subst n. exfalso. apply Hn.
      now apply (in_map fst _ _ Hin).
    + now apply IH.
Qed.

Lemma seed_activities_appends (records : list (string * dict)) :
  NoDup (map fst records) ->
  Forall (fun r => fst r <> "" /\ plain_record (snd r)) records ->
  forall done,
    (forall n, In n (map fst records) -> ~ In n (map fst done)) ->
    seed_activities (store_of done) (seed_of records)
    = Ok (store_of (done ++ records)).
Proof.
  induction records as [|[n d] records IH]; intros Hnd Hall done Hfresh.
  - now rewrite app_nil_r.
  - cbn [map fst] in Hnd, Hfresh. inversion Hnd as [|? ? Hn Hnd']; subst.
    inversion Hall as [|? ? [Hname Hplain] Hall']; subst. cbn [fst snd] in *.
    cbn [seed_of map seed_activities fst snd].
    rewrite (with_id_plain _ _ Hplain). cbn [bind].
    rewrite (insert_plain_record _ _ _ Hname Hplain). cbn [bind].
    rewrite store_set_absent
      by (apply store_get_store_of_absent, Hfresh; now left).
    change (store_of done ++ [(VStr n, d)]) with
      (store_of done ++ store_of [(n, d)]).
    unfold store_of at 1 2. rewrite <- map_app. fold (store_of (done ++ [(n, d)])).
    fold (seed_of records).
    rewrite (IH Hnd' Hall' (done ++ [(n, d)])).
    + now rewrite <- app_assoc.
    + intros n' Hn' Hin. rewrite map_app, in_app_iff in Hin.
      destruct Hin as [Hin|[<-|[]]]; [|contradiction].
      apply (Hfresh n'); [now right | exact Hin].
Qed.

Lemma seed_teachers_appends (records : list (string * dict)) :
  NoDup (map fst records) ->
  Forall (fun r => fst r <> "" /\ plain_record (snd r) /\
                   dict_get "username" (snd r) = Some (VStr (fst r))) records ->
  forall done,
    (forall n, In n (map fst records) -> ~ In n (map fst done)) ->
    seed_teachers (store_of done) (map (fun r => VDict (snd r)) records)
    = Ok (store_of (done ++ records)).
Proof.
  induction records as [|[n d] records IH]; intros Hnd Hall done Hfresh.
  - now rewrite app_nil_r.
  - cbn [map fst] in Hnd, Hfresh. inversion Hnd as [|? ? Hn Hnd']; subst.
    inversion Hall as [|? ? (Hname & Hplain & Huser) Hall']; subst.
    cbn [fst snd] in *.
    cbn [map seed_teachers fst snd py_getitem]. rewrite Huser. cbn [bind].
    rewrite (with_id_plain _ _ Hplain). cbn [bind].
    rewrite (insert_plain_record _ _ _ Hname Hplain). cbn [bind].
    rewrite store_set_absent
      by (apply store_get_store_of_absent, Hfresh; now left).
    change (store_of done ++ [(VStr n, d)]) with
      (store_of done ++ store_of [(n, d)]).
    unfold store_of at 1 2. rewrite <- map_app. fold (store_of (done ++ [(n, d)])).
    rewrite (IH Hnd' Hall' (done ++ [(n, d)])).
    + now rewrite <- app_assoc.
    + intros n' Hn' Hin. rewrite map_app, in_app_iff in Hin.
      destruct Hin as [Hin|[<-|[]]]; [|contradiction].
      apply (Hfresh n'); [now right | exact Hin].
Qed.


(** From two empty collections, [init_database] leaves exactly the seed
    data, in seed order: every activity is stored under its name and every
    teacher under the user name, each as the record it was given as, and
    [find_one] on a name returns that record with the name under ["_id"].
    Names are non-empty and not repeated; records are mappings without a
    key field of their own. *)
Theorem init_database_seeds_empty_collections
    (activities teachers : list (string * dict))
    (Hnames : NoDup (map fst activities))
    (Hactivities :
       Forall (fun r => fst r <> "" /\ plain_record (snd r)) activities)
    (Husers : NoDup (map fst teachers))
    (Hteachers :
       Forall (fun r => fst r <> "" /\ plain_record (snd r) /\
                        dict_get "username" (snd r) = Some (VStr (fst r)))
         teachers) :
  init_database [] [] (seed_of activities)
    (map (fun r => VDict (snd r)) teachers)
  = Ok (store_of activities, store_of teachers) /\
  (forall name d,
     In (name, d) activities ->
     find_one (store_of activities) (VDict [("_id", VStr name)])
     = Ok (Some (materialise (VStr name, d)))) /\
  (forall name d,
     In (name, d) teachers ->
     find_one (store_of teachers) (VDict [("_id", VStr name)])
     = Ok (Some (materialise (VStr name, d)))) /\
  count_documents (store_of activities) (VDict [])
  = Z.of_nat (List.length activities).
Proof.
  split; [|split; [|split]].
  - unfold init_database, count_documents.
    cbn [List.length Z.of_nat Z.eqb].
    pose proof (seed_activities_appends activities Hnames Hactivities [])
      as Ha.
    pose proof (seed_teachers_appends teachers Husers Hteachers []) as Ht.
    cbn [store_of map app] in Ha, Ht. fold (store_of activities) in Ha.
    fold (store_of teachers) in Ht.
    rewrite Ha by (intros n _ []). cbn [bind].
    rewrite Ht by (intros n _ []). reflexivity.
  - intros name d Hin. apply find_one_found; [reflexivity | reflexivity |].
    now apply store_get_store_of.
  - intros name d Hin. apply find_one_found; [reflexivity | reflexivity |].
    now apply store_get_store_of.
  - unfold count_documents, store_of. now rewrite length_map.
Qed.

Lemma init_database_seeds_empty_collections_witness :
  init_database [] []
    [("Chess Club", VDict [("max_participants", VInt 12)]);
     ("Art Club", VDict [("max_participants", VInt 15)])]
    [VDict [("username", VStr "mchen"); ("role", VStr "teacher")]]
  = Ok ([(VStr "Chess Club", [("max_participants", VInt 12)]);
         (VStr "Art Club", [("max_participants", VInt 15)])],
        [(VStr "mchen", [("username", VStr "mchen"); ("role", VStr "teacher")])]).
Proof.
  apply (init_database_seeds_empty_collections
           [("Chess Club", [("max_participants", VInt 12)]);
            ("Art Club", [("max_participants", VInt 15)])]
           [("mchen", [("username", VStr "mchen"); ("role", VStr "teacher")])]).
  - repeat constructor; cbn; intuition discriminate.
  - repeat constructor; cbn; intuition discriminate.
  - repeat constructor; cbn; intuition discriminate.
  - repeat constructor; cbn; intuition discriminate.
Defined.




(** ** What [insert_one] shares with its caller *)

Lemma fields_get_filter_other (field : string)
    (fields : list (string * Heap.ref)) :
  field <> "_id" ->
  Heap.fields_get field
    (filter (fun f => negb (String.eqb (fst f) "_id")) fields)
  = Heap.fields_get field fields.
Proof.
  intros Hne. induction fields as [|[k r] fields IH]; [reflexivity|].
  cbn [filter fst Heap.fields_get].
  destruct (String.eqb k "_id") eqn:E; cbn [negb Heap.fields_get].
  - apply String.eqb_eq in E. subst k.
    destruct (String.eqb field "_id") eqn:E'; [|exact IH].
    apply String.eqb_eq in E'. contradiction.
  - now rewrite IH.
Qed.

Lemma fields_get_filter_id (fields : list (string * Heap.ref)) :
  Heap.fields_get "_id"
    (filter (fun f => negb (String.eqb (fst f) "_id")) fields) = None.
Proof.
  induction fields as [|[k r] fields IH]; [reflexivity|].
  cbn [filter fst]. destruct (String.eqb k "_id") eqn:E; cbn [negb]; [exact IH|].
  cbn [Heap.fields_get]. now rewrite String.eqb_sym, E.
Qed.

Lemma ref_key_hashable (r : Heap.ref) (key : value) :
  Heap.ref_key r = Some key -> hashable key = true.
Proof. destruct r; cbn [Heap.ref_key]; intros [= <-]; reflexivity. Qed.

Lemma heap_store_get_set_same (key : value) (l : nat) (data : Heap.store) :
  hashable key = true ->
  Heap.store_get key (Heap.store_set key l data) = Some l.
Proof.
  intros Hh. induction data as [|[k l0] data IH];
    cbn [Heap.store_set Heap.store_get].
  - now rewrite py_eq_refl_hashable.
  - destruct (py_eq k key) eqn:E; cbn [Heap.store_get]; rewrite E;
      [reflexivity | exact IH].
Qed.

Lemma heap_insert_one_spec (h : Heap.heap) (data : Heap.store)
    (document : nat) (fields : list (string * Heap.ref)) (id : Heap.ref)
    (key : value)
    (Hdocument : nth_error h document = Some (Heap.ODict fields))
    (Hid : Heap.fields_get "_id" fields = Some id)
    (Htruthy : Heap.truthy h id = Ok true)
    (Hkey : Heap.ref_key id = Some key) :
  exists stored h' data',
    Heap.insert_one h data document = Ok (h', data') /\
    Heap.store_get key data' = Some (List.length h) /\
    List.length h <> document /\
    nth_error h' (List.length h) = Some (Heap.ODict stored) /\
    nth_error h' document = Some (Heap.ODict fields) /\
    Heap.fields_get "_id" stored = None /\
    (forall field, field <> "_id" ->
       Heap.fields_get field stored = Heap.fields_get field fields) /\
    (forall a, (a < List.length h)%nat -> nth_error h' a = nth_error h a).
Proof.
  set (stored := filter (fun f => negb (String.eqb (fst f) "_id")) fields).
  exists stored, (h ++ [Heap.ODict stored]),
    (Heap.store_set key (List.length h) data).
  split; [|split; [|split; [|split; [|split; [|split; [|split]]]]]].
  - unfold Heap.insert_one. rewrite Hdocument, Hid, Htruthy. cbn [bind].
    now rewrite Hkey.
  - apply heap_store_get_set_same. now apply (ref_key_hashable id).
  - intros E. assert (Hlt : (document < List.length h)%nat)
      by (apply nth_error_Some; congruence). lia.
  - now rewrite nth_error_app2, Nat.sub_diag by lia.
  - now apply nth_error_extend.
  - apply fields_get_filter_id.
  - intros field Hne. now apply fields_get_filter_other.
  - intros a Ha. now apply nth_error_app1.
Qed.

(** [insert_one] copies one level only.  The stored document is a new
    object, so the caller's dictionary and the stored one can gain and lose
    fields independently; but under every field it holds the reference the
    caller's dictionary holds, so a list or mapping nested in the document
    is one object seen from both. *)
Theorem insert_one_copies_one_level (h : Heap.heap) (data : Heap.store)
    (document : nat) (fields : list (string * Heap.ref)) (id : Heap.ref)
    (key : value)
    (Hdocument : nth_error h document = Some (Heap.ODict fields))
    (Hid : Heap.fields_get "_id" fields = Some id)
    (Htruthy : Heap.truthy h id = Ok true)
    (Hkey : Heap.ref_key id = Some key) :
  exists stored h' data',
    Heap.insert_one h data document = Ok (h', data') /\
    Heap.store_get key data' = Some (List.length h) /\
    List.length h <> document /\
    nth_error h' (List.length h) = Some (Heap.ODict stored) /\
    nth_error h' document = Some (Heap.ODict fields) /\
    Heap.fields_get "_id" stored = None /\
    (forall field, field <> "_id" ->
       Heap.fields_get field stored = Heap.fields_get field fields) /\
    (forall a, (a < List.length h)%nat -> nth_error h' a = nth_error h a).
Proof.
  set (stored := filter (fun f => negb (String.eqb (fst f) "_id")) fields).
  exists stored, (h ++ [Heap.ODict stored]),
    (Heap.store_set key (List.length h) data).
  split; [|split; [|split; [|split; [|split; [|split; [|split]]]]]].
  - unfold Heap.insert_one. rewrite Hdocument, Hid, Htruthy. cbn [bind].
    now rewrite Hkey.
  - apply heap_store_get_set_same. now apply (ref_key_hashable id).
  - intros E. assert (Hlt : (document < List.length h)%nat)
      by (apply nth_error_Some; congruence). lia.
  - now rewrite nth_error_app2, Nat.sub_diag by lia.
  - now apply nth_error_extend.
  - apply fields_get_filter_id.
  - intros field Hne. now apply fields_get_filter_other.
  - intros a Ha. now apply nth_error_app1.
Qed.

Lemma insert_one_copies_one_level_witness :
  exists stored h' data',
    Heap.insert_one
      [Heap.OList [Heap.RStr "michael@mergington.edu"];
       Heap.ODict [("_id", Heap.RStr "Chess Club");
                   ("participants", Heap.RObj 0)]] [] 1
    = Ok (h', data') /\
    nth_error h' 2 = Some (Heap.ODict stored) /\
    Heap.fields_get "participants" stored = Some (Heap.RObj 0).
Proof.
  destruct (insert_one_copies_one_level
              [Heap.OList [Heap.RStr "michael@mergington.edu"];
               Heap.ODict [("_id", Heap.RStr "Chess Club");
                           ("participants", Heap.RObj 0)]] [] 1%nat
              [("_id", Heap.RStr "Chess Club"); ("participants", Heap.RObj 0)]
              (Heap.RStr "Chess Club") (VStr "Chess Club")
              eq_refl eq_refl eq_refl eq_refl)
    as (stored & h' & data' & Hins & _ & _ & Hstored & _ & _ & Hsame & _).
  exists stored, h', data'. split; [exact Hins|]. split; [exact Hstored|].
  rewrite (Hsame "participants"); [reflexivity | discriminate].
Defined.

(** A [$push] through the store writes into the caller's own list: after
    [insert_one] of a document whose field refers to a list object, the
    append of lines 113-114 on the stored document changes that very
    object, and the caller's dictionary, itself untouched, shows the new
    element. *)
Theorem push_after_insert_reaches_caller (h : Heap.heap) (data : Heap.store)
    (document : nat) (fields : list (string * Heap.ref)) (id : Heap.ref)
    (key : value) (field : string) (l : nat) (items : list Heap.ref)
    (v : Heap.ref)
    (Hdocument : nth_error h document = Some (Heap.ODict fields))
    (Hid : Heap.fields_get "_id" fields = Some id)
    (Htruthy : Heap.truthy h id = Ok true)
    (Hkey : Heap.ref_key id = Some key)
    (Hfield : field <> "_id")
    (Hlist : Heap.fields_get field fields = Some (Heap.RObj l))
    (Hitems : nth_error h l = Some (Heap.OList items)) :
  exists h1 data1 stored h2,
    Heap.insert_one h data document = Ok (h1, data1) /\
    Heap.store_get key data1 = Some stored /\
    Heap.push_field h1 stored field v = Ok h2 /\
    nth_error h2 document = Some (Heap.ODict fields) /\
    nth_error h2 l = Some (Heap.OList (items ++ [v])).
Proof.
  destruct (heap_insert_one_spec h data document fields id key
              Hdocument Hid Htruthy Hkey)
    as (sf & h1 & data1 & Hins & Hget & _ & Hstored & Hdoc1 & _ & Hsame & Hold).
  assert (Hl : (l < List.length h)%nat) by (apply nth_error_Some; congruence).
  assert (Hl1 : nth_error h1 l = Some (Heap.OList items))
    by (now rewrite (Hold l Hl)).
  exists h1, data1, (List.length h), (Heap.update l (Heap.OList (items ++ [v])) h1).
  split; [exact Hins|]. split; [exact Hget|]. split; [|split].
  - unfold Heap.push_field. rewrite Hstored, (Hsame field Hfield), Hlist, Hl1.
    reflexivity.
  - rewrite nth_error_update_other; [exact Hdoc1|]. intros ->. congruence.
  - now apply (nth_error_update_same h1 l _ (Heap.OList items)).
Qed.

Lemma push_after_insert_reaches_caller_witness :
  exists h1 data1 stored h2,
    Heap.insert_one
      [Heap.OList [Heap.RStr "michael@mergington.edu"];
       Heap.ODict [("_id", Heap.RStr "Chess Club");
                   ("participants", Heap.RObj 0)]] [] 1
    = Ok (h1, data1) /\
    Heap.store_get (VStr "Chess Club") data1 = Some stored /\
    Heap.push_field h1 stored "participants"
      (Heap.RStr "daniel@mergington.edu") = Ok h2 /\
    nth_error h2 0
    = Some (Heap.OList [Heap.RStr "michael@mergington.edu";
                        Heap.RStr "daniel@mergington.edu"]).
Proof.
  destruct (push_after_insert_reaches_caller
              [Heap.OList [Heap.RStr "michael@mergington.edu"];
               Heap.ODict [("_id", Heap.RStr "Chess Club");
                           ("participants", Heap.RObj 0)]] [] 1%nat
              [("_id", Heap.RStr "Chess Club"); ("participants", Heap.RObj 0)]
              (Heap.RStr "Chess Club") (VStr "Chess Club") "participants"
              0%nat [Heap.RStr "michael@mergington.edu"]
              (Heap.RStr "daniel@mergington.edu")
              eq_refl eq_refl eq_refl eq_refl)
    as (h1 & data1 & stored & h2 & Hins & Hget & Hpush & _ & Hl).
  - discriminate.
  - reflexivity.
  - reflexivity.
  - exists h1, data1, stored, h2. now repeat split.
Defined.

(** ** Filters given to [find_one] and [update_one] *)

(** [find_one] and [update_one] read the key clause of their filter and
    nothing else: two filters with the same ["_id"] get the same answer,
    and a stored document is returned, or updated, under its key even when
    the other clauses of the filter reject it. *)
Theorem lookup_reads_key_clause_only (data : store) (q : dict)
    (doc_id : value) (doc : dict)
    (Hq : dict_get "_id" q = Some doc_id)
    (Hh : hashable doc_id = true)
    (Hg : store_get doc_id data = Some doc) :
  (forall q',
     dict_get "_id" q' = Some doc_id ->
     find_one data (VDict q') = find_one data (VDict q) /\
     forall update,
       update_one data (VDict q') update = update_one data (VDict q) update) /\
  (_match_query (materialise (doc_id, doc)) q = Ok false ->
   find_one data (VDict q) = Ok (Some (materialise (doc_id, doc))) /\
   forall docs,
     find data (Some q) = Ok docs -> ~ In (materialise (doc_id, doc)) docs).
Proof.
  split.
  - intros q' Hq'. split.
    + now rewrite !(find_one_found data _ doc_id doc) by assumption.
    + intros update.
      now rewrite !(update_one_found data _ doc_id doc update) by assumption.
  - intros Hreject. split; [now apply find_one_found|].
    intros docs Hfind Hin.
    rewrite (find_returns_accepted data q docs Hfind) in Hin.
    apply in_map_iff in Hin. destruct Hin as (entry & Heq & Hentry).
    apply filter_In in Hentry. destruct Hentry as [_ Hacc].
    unfold accepts in Hacc. rewrite Heq, Hreject in Hacc. discriminate Hacc.
Qed.

Lemma lookup_reads_key_clause_only_witness :
  find_one two_clubs
    (VDict [("_id", VStr "Chess Club"); ("max_participants", VInt 99)])
  = Ok (Some (materialise
                (VStr "Chess Club",
                 [("max_participants", VInt 12);
                  ("participants", VList [VStr "michael@mergington.edu"])]))).
Proof.
  destruct (lookup_reads_key_clause_only two_clubs
              [("_id", VStr "Chess Club"); ("max_participants", VInt 99)]
              (VStr "Chess Club")
              [("max_participants", VInt 12);
               ("participants", VList [VStr "michael@mergington.edu"])]
              eq_refl eq_refl eq_refl) as [_ Hreject].
  apply Hreject. reflexivity.
Defined.

(** * The matcher against what a filter asks *)

(** ** Paths *)

Lemma str_split_dotless (s : string) :
  dotless s -> str_split "."%char s = [s].
Proof.
  induction s as [|c s IH]; cbn [dotless str_split]; [reflexivity|].
  intros [Hc Hs]. apply Ascii.eqb_neq in Hc. rewrite Hc. now rewrite (IH Hs).
Qed.

Lemma str_split_append (s t : string) :
  dotless s ->
  str_split "."%char (String.append s (String "."%char t))
  = s :: str_split "."%char t.
Proof.
  induction s as [|c s IH]; cbn [dotless String.append].
  - intros _. cbn [str_split]. now rewrite Ascii.eqb_refl.
  - intros [Hc Hs]. cbn [str_split]. apply Ascii.eqb_neq in Hc. rewrite Hc.
    now rewrite (IH Hs).
Qed.

Lemma str_split_join (segments : list string) :
  segments <> [] -> Forall dotless segments ->
  str_split "."%char (join_dots segments) = segments.
Proof.
  induction segments as [|s rest IH]; [congruence|].
  intros _ Hall. inversion Hall as [|? ? Hs Hrest]; subst.
  destruct rest as [|s' rest].
  - cbn [join_dots]. now apply str_split_dotless.
  - change (join_dots (s :: s' :: rest))
      with (String.append s (String "."%char (join_dots (s' :: rest)))).
    rewrite (str_split_append _ _ Hs). f_equal.
    apply IH; [discriminate | exact Hrest].
Qed.

Lemma join_dots_cons (s : string) (rest : list string) :
  rest <> [] ->
  join_dots (s :: rest) = String.append s (String "."%char (join_dots rest)).
Proof. destruct rest; [congruence | reflexivity]. Qed.

Lemma join_dots_head (c : ascii) (h : string) (t : list string) :
  join_dots (String c h :: t) = String c (join_dots (h :: t)).
Proof. destruct t; reflexivity. Qed.

Lemma join_str_split (key : string) :
  str_split "."%char key <> [] /\
  join_dots (str_split "."%char key) = key /\
  Forall dotless (str_split "."%char key).
Proof.
  induction key as [|c key (Hne & Hjoin & Hall)]; cbn [str_split].
  - split; [discriminate|]. split; [reflexivity|]. now repeat constructor.
  - destruct (Ascii.eqb c ".") eqn:E.
    + apply Ascii.eqb_eq in E. subst c.
      split; [discriminate|]. split.
      * rewrite (join_dots_cons _ _ Hne). cbn [String.append]. now rewrite Hjoin.
      * constructor; [exact I | exact Hall].
    + apply Ascii.eqb_neq in E.
      destruct (str_split "."%char key) as [|h t]; [congruence|].
      split; [discriminate|]. split.
      * now rewrite join_dots_head, Hjoin.
      * inversion Hall as [|? ? Hh Ht]; subst.
        constructor; [now split | exact Ht].
Qed.

(** Cutting a key at its separators gives its segments, and nothing else
    does. *)
Lemma path_of_split (key : string) (segments : list string) :
  path_of key segments <-> str_split "."%char key = segments.
Proof.
  unfold path_of. split.
  - intros (Hne & <- & Hall). now apply str_split_join.
  - intros <-. apply join_str_split.
Qed.

Lemma traverse_reaches (segments : list string) (v w : value) :
  traverse v segments = Some w <-> reaches v segments w.
Proof.
  revert v. induction segments as [|segment rest IH]; intros v;
    cbn [traverse].
  - split; [intros [= <-]; constructor | intros H; now inversion H].
  - split.
    + destruct v; try discriminate.
      destruct (dict_get segment kvs) as [x|] eqn:E; [|discriminate].
      intros H. apply IH in H. now apply (reaches_down kvs segment rest x w).
    + intros H. inversion H as [|d s r x y Hget Hrest]; subst.
      rewrite Hget. now apply IH.
Qed.

Lemma field_at_resolve (doc : dict) (key : string) (current_val : value) :
  field_at doc key current_val <-> resolve_path doc key = Some current_val.
Proof.
  unfold field_at, resolve_path. split.
  - intros (segments & Hpath & Hreach). apply path_of_split in Hpath.
    rewrite Hpath. now apply traverse_reaches.
  - intros H. exists (str_split "."%char key).
    split; [now apply path_of_split | now apply traverse_reaches].
Qed.

(** ** Tests *)

Lemma any_in_first_hit (items : list value) (current_val : value) :
  any_in items current_val = Ok true <-> first_hit current_val items.
Proof.
  unfold first_hit. induction items as [|item items IH]; cbn [any_in].
  - split; [discriminate|]. intros (before & i & after & H & _).
    now destruct before.
  - destruct (py_in item current_val) as [[|]|e] eqn:E; cbn [bind].
    + split; [|reflexivity]. intros _. exists [], item, items.
      split; [reflexivity|]. split; [exact E | constructor].
    + rewrite IH. split.
      * intros (before & i & after & -> & Hi & Hb).
        exists (item :: before), i, after.
        split; [reflexivity|]. split; [exact Hi | now constructor].
      * intros (before & i & after & Heq & Hi & Hb).
        destruct before as [|b before]; cbn [app] in Heq; injection Heq as <- ->.
        -- congruence.
        -- inversion Hb; subst. now exists before, i, after.
    + split; [discriminate|]. intros (before & i & after & Heq & Hi & Hb).
      destruct before as [|b before]; cbn [app] in Heq; injection Heq as <- ->.
      * congruence.
      * inversion Hb; subst. congruence.
Qed.

Lemma first_hit_list (xs items : list value) :
  first_hit (VList xs) items <->
  exists c x, In c items /\ In x xs /\ py_eq x c = true.
Proof.
  rewrite <- any_in_first_hit, any_in_list. split.
  - intros [= H]. apply existsb_exists in H. destruct H as (c & Hc & H).
    apply existsb_exists in H. destruct H as (x & Hx & H). now exists c, x.
  - intros (c & x & Hc & Hx & H). f_equal.
    apply existsb_exists. exists c. split; [exact Hc|].
    apply existsb_exists. now exists x.
Qed.

(** The test the loop body makes is the test the clause value stands
    for. *)
Lemma match_value_passes (current_val v : value) :
  match_value current_val v = Ok true <-> test_passes current_val v.
Proof.
  split.
  - destruct v as [| | | | |ops];
      try (cbn [match_value]; intros [= H]; apply passes_literal;
           [discriminate | exact H]).
    destruct (dict_get "$in" ops) as [candidates|] eqn:Hin.
    + rewrite (match_value_in _ _ _ Hin).
      destruct (py_iter candidates) as [items|e] eqn:Hiter; cbn [bind];
        [|discriminate].
      intros H. apply any_in_first_hit in H.
      now apply (passes_in _ ops candidates items).
    + destruct (dict_get "$gte" ops) as [bound|] eqn:Hgte.
      * rewrite (match_value_gte _ _ _ Hin Hgte). intros H.
        now apply (passes_gte _ ops bound).
      * destruct (dict_get "$lte" ops) as [bound|] eqn:Hlte.
        -- rewrite (match_value_lte _ _ _ Hin Hgte Hlte). intros H.
           now apply (passes_lte _ ops bound).
        -- intros _. now apply passes_unrecognised.
  - intros H.
    destruct H as [v Hlit Heq|ops candidates items Hin Hiter Hhit
                   |ops bound Hin Hgte Hcmp|ops bound Hin Hgte Hlte Hcmp
                   |ops Hin Hgte Hlte].
    + destruct v; cbn [match_value]; try now rewrite Heq.
      now destruct (Hlit kvs).
    + rewrite (match_value_in _ _ _ Hin), Hiter. cbn [bind].
      now apply any_in_first_hit.
    + now rewrite (match_value_gte _ _ _ Hin Hgte).
    + now rewrite (match_value_lte _ _ _ Hin Hgte Hlte).
    + unfold match_value. now rewrite Hin, Hgte, Hlte.
Qed.

Lemma match_clause_satisfied (doc : dict) (key : string) (v : value) :
  match_clause doc key v = Ok true <-> clause_satisfied doc (key, v).
Proof.
  rewrite match_clause_true. unfold clause_holds, clause_satisfied.
  cbn [fst snd]. split; intros (cur & Hfield & Htest); exists cur.
  - split; [now apply field_at_resolve | now apply match_value_passes].
  - split; [now apply field_at_resolve | now apply match_value_passes].
Qed.

(** C3: the matcher accepts a document exactly when the document satisfies
    every clause of the filter, a clause being satisfied when its path,
    cut at the separators, leads segment by segment through keys of
    mappings to a field, and the field passes the test the clause value
    stands for (for a list field under [$in]: the two lists share an
    element); it accepts everything under the empty filter; and a clause
    whose path stops at a segment that is not a key of a mapping, a missing
    top-level field being the one-segment case, evaluates to a plain
    rejection, which keeps the filter from accepting and, no earlier clause
    raising, is the matcher's answer. *)
Theorem match_query_is_conjunction (doc : dict) :
  (forall q, _match_query doc q = Ok true <-> Forall (clause_satisfied doc) q) /\
  _match_query doc [] = Ok true /\
  (forall key v pre part rest w,
     path_of key (pre ++ part :: rest) ->
     reaches (VDict doc) pre w ->
     (forall d, w = VDict d -> dict_get part d = None) ->
     (forall current_val, ~ field_at doc key current_val) /\
     match_clause doc key v = Ok false /\
     (forall q, In (key, v) q -> _match_query doc q <> Ok true) /\
     (forall before after,
        Forall (fun kv => ~ raises (match_clause doc (fst kv) (snd kv))) before ->
        _match_query doc (before ++ (key, v) :: after) = Ok false)) /\
  (forall xs ops candidates,
     dict_get "$in" ops = Some (VList candidates) ->
     test_passes (VList xs) (VDict ops) <->
     exists c x, In c candidates /\ In x xs /\ py_eq x c = true).
Proof.
  split; [|split; [|split]].
  - intros q. rewrite match_query_true, !Forall_forall.
    split; intros H [key v] Hin; apply match_clause_satisfied; exact (H _ Hin).
  - reflexivity.
  - intros key v pre part rest w Hpath Hpre Hstuck.
    apply path_of_split in Hpath. apply traverse_reaches in Hpre.
    assert (Hnone : resolve_path doc key = None).
    { unfold resolve_path. rewrite Hpath.
      now apply (traverse_stuck _ w). }
    assert (Hc : match_clause doc key v = Ok false).
    { now rewrite match_clause_resolve, Hnone. }
    split; [|split; [exact Hc|split]].
    + intros cur Hcur. apply field_at_resolve in Hcur. congruence.
    + intros q Hin Hq. apply match_query_true in Hq.
      rewrite Forall_forall in Hq. specialize (Hq _ Hin). cbn [fst snd] in Hq.
      rewrite Hc in Hq. discriminate Hq.
    + intros before after Hb. now apply match_query_false_at.
  - intros xs ops candidates Hin. rewrite <- first_hit_list. split.
    + intros H. rewrite <- match_value_passes in H.
      rewrite (match_value_in _ _ _ Hin) in H. cbn [py_iter bind] in H.
      now apply any_in_first_hit.
    + intros H. now apply (passes_in _ ops (VList candidates) candidates).
Qed.

Lemma match_query_is_conjunction_witness :
  match_clause chess_club "schedule_details.room" (VStr "B12") = Ok false /\
  _match_query chess_club
    [("max_participants", VInt 12); ("schedule_details.room", VStr "B12")]
  = Ok false.
Proof.
  destruct (match_query_is_conjunction chess_club) as (_ & _ & H & _).
  destruct (H "schedule_details.room" (VStr "B12") ["schedule_details"] "room" []
              (VDict [("days", VList [VStr "Monday"; VStr "Friday"]);
                      ("start_time", VStr "15:15")]))
    as (_ & Hc & _ & Hq).
  - split; [discriminate|]. split; [reflexivity|].
    repeat constructor; discriminate.
  - apply (reaches_down chess_club "schedule_details" [] _ _ eq_refl).
    constructor.
  - intros d [= <-]. reflexivity.
  - split; [exact Hc|].
    apply (Hq [("max_participants", VInt 12)] []).
    constructor; [|constructor]. intros [e He]. discriminate He.
Defined.
